(** * ChronoRift battle engine: a shallow embedding of
      [app/utils/battle_engine.py] and the properties of its operations.

    Python values are modelled as the code has them: [int] as [Z], [float]
    as IEEE binary64 (Rocq's primitive floats), [str] as [string], [list]
    as [list], [dict] as a finite map, exceptions as an error result. *)

From Stdlib Require Import ZArith Floats Ascii String DecimalString DecimalPos.
From stdpp Require Import base option list sorting gmap strings.

#[local] Set Warnings "-inexact-float".
Local Open Scope Z_scope.

(* ====================================================================== *)
(** * The Python run-time layer                                            *)
(* ====================================================================== *)

Module Py.

(** Exceptions the engine can raise. *)
Inductive exn : Set :=
| KeyError | IndexError | ValueError | TypeError | OverflowError
| ZeroDivisionError.

(** A computation either returns a value or raises. *)
Inductive res (A : Type) : Type :=
| Ok (a : A)
| Raise (e : exn).
Arguments Ok {A} a.
Arguments Raise {A} e.

#[export] Instance res_ret : MRet res := fun A a => Ok a.
#[export] Instance res_bind : MBind res := fun A B f m =>
  match m with Ok a => f a | Raise e => Raise e end.

(** [d[k]] on a dict. *)
Definition getitem `{Countable K} {V} (d : gmap K V) (k : K) : res V :=
  match d !! k with Some v => Ok v | None => Raise KeyError end.

(** A [for] loop over a list, threading the loop state; an exception in
    the body ends the loop. *)
Fixpoint for_each {A B} (body : A -> B -> res A) (a : A) (l : list B)
  : res A :=
  match l with
  | [] => Ok a
  | x :: l' => a' ← body a x; for_each body a' l'
  end.

(** [l[0]] on a list. *)
Definition first {A} (l : list A) : res A :=
  match l with x :: _ => Ok x | [] => Raise IndexError end.

(** ** Floats *)

Definition is_inf (x : float) : bool :=
  match Prim2SF x with S754_infinity _ => true | _ => false end.

(** [float(n)] for an int [n]: nearest binary64, ties to even;
    [OverflowError] when [n] is out of range. *)
Definition float_of_int (n : Z) : res float :=
  let x := SF2Prim (binary_normalize prec emax n 0 false) in
  if is_inf x then Raise OverflowError else Ok x.

(** [int(x)] for a float [x]: truncation toward zero; [ValueError] on NaN,
    [OverflowError] on an infinity. *)
Definition int_of_float (x : float) : res Z :=
  match Prim2SF x with
  | S754_zero _ => Ok 0
  | S754_finite s m e =>
      let v := Z.shiftl (Z.pos m) e in Ok (if s then - v else v)
  | S754_infinity _ => Raise OverflowError
  | S754_nan => Raise ValueError
  end.

(** [round(x)] for a float [x]: nearest integer, ties to even. *)
Definition round (x : float) : res Z :=
  match Prim2SF x with
  | S754_zero _ => Ok 0
  | S754_finite s m e =>
      let v :=
        match e with
        | Z.neg p =>
            let d := Z.pow 2 (Z.pos p) in
            let q := Z.pos m / d in
            let r := Z.pos m mod d in
            match 2 * r ?= d with
            | Lt => q
            | Gt => q + 1
            | Eq => if Z.even q then q else q + 1
            end
        | _ => Z.shiftl (Z.pos m) e
        end in
      Ok (if s then - v else v)
  | S754_infinity _ => Raise OverflowError
  | S754_nan => Raise ValueError
  end.

(** [a / b] on two ints: the correctly rounded quotient. *)
Definition int_truediv (a b : Z) : res float :=
  if b =? 0 then Raise ZeroDivisionError
  else
    let sf (n : Z) := match n with
                      | Z0 => S754_zero false
                      | Z.pos p => S754_finite false p 0
                      | Z.neg p => S754_finite true p 0
                      end in
    let x := SF2Prim (SFdiv prec emax (sf a) (sf b)) in
    if is_inf x then Raise OverflowError else Ok x.

(** [max(a, b)] on floats: the first argument unless the second is
    strictly greater. *)
Definition fmax (a b : float) : float := if PrimFloat.ltb a b then b else a.


(** ** Strings *)

(** [str(n)] for an int [n]. *)
Definition str_of_int (n : Z) : string := NilZero.string_of_int (Z.to_int n).

(** [s.split(sep)] for a one-character separator. *)
Fixpoint split (sep : ascii) (s : string) : list string :=
  match s with
  | EmptyString => [EmptyString]
  | String c s' =>
      if Ascii.eqb c sep then EmptyString :: split sep s'
      else match split sep s' with
           | h :: t => String c h :: t
           | [] => [String c EmptyString]
           end
  end.

(** ASCII white space, as [str.strip] and [int] see it. *)
Definition is_space (c : ascii) : bool :=
  let n := nat_of_ascii c in
  ((9 <=? n) && (n <=? 13) || (28 <=? n) && (n <=? 32))%nat.

Definition is_digit (c : ascii) : bool :=
  let n := nat_of_ascii c in ((48 <=? n) && (n <=? 57))%nat.

Definition digit_value (c : ascii) : Z := Z.of_nat (nat_of_ascii c) - 48.

Fixpoint lstrip (s : string) : string :=
  match s with
  | String c s' => if is_space c then lstrip s' else s
  | EmptyString => EmptyString
  end.

Fixpoint rstrip (s : string) : string :=
  match s with
  | EmptyString => EmptyString
  | String c s' =>
      match rstrip s' with
      | EmptyString => if is_space c then EmptyString else String c EmptyString
      | t => String c t
      end
  end.

Definition strip (s : string) : string := rstrip (lstrip s).

(** Decimal digits, single underscores allowed between two digits.
    [after_digit] tells whether the previous character was a digit. *)
Fixpoint parse_digits (acc : Z) (after_digit : bool) (s : string) : option Z :=
  match s with
  | EmptyString => if after_digit then Some acc else None
  | String c s' =>
      if is_digit c then parse_digits (10 * acc + digit_value c) true s'
      else if Ascii.eqb c "_" then
             if after_digit then parse_digits acc false s' else None
      else None
  end.

(** [int(s)] for an ASCII string [s]: surrounding white space, an optional
    sign, decimal digits; [ValueError] otherwise. *)
Definition int_of_string (s : string) : res Z :=
  let t := strip s in
  let '(negative, body) :=
    match t with
    | String c r =>
        if Ascii.eqb c "-" then (true, r)
        else if Ascii.eqb c "+" then (false, r)
        else (false, t)
    | EmptyString => (false, t)
    end in
  match parse_digits 0 false body with
  | Some n => Ok (if negative then - n else n)
  | None => Raise ValueError
  end.

(** [x in l] for a list of strings. *)
Definition contains (x : string) (l : list string) : bool :=
  bool_decide (x ∈ l).

End Py.
Import Py.

Local Open Scope float_scope.

(* ====================================================================== *)
(** * Enumerations and constants                                           *)
(* ====================================================================== *)

(** [EchoElement] of [echo_generator.py]. *)
Inductive EchoElement : Set :=
| FIRE | WATER | WIND | EARTH | LIGHT | DARK | NEUTRAL.

#[export] Instance EchoElement_eq_dec : EqDecision EchoElement.
Proof. solve_decision. Defined.

Definition EchoElement_all : list EchoElement :=
  [FIRE; WATER; WIND; EARTH; LIGHT; DARK; NEUTRAL].

Definition EchoElement_code (e : EchoElement) : nat :=
  match e with
  | FIRE => 0 | WATER => 1 | WIND => 2 | EARTH => 3
  | LIGHT => 4 | DARK => 5 | NEUTRAL => 6
  end%nat.

Definition EchoElement_decode (n : nat) : option EchoElement :=
  EchoElement_all !! n.

#[export] Instance EchoElement_countable : Countable EchoElement.
Proof.
  refine (inj_countable EchoElement_code EchoElement_decode _).
  intros []; reflexivity.
Defined.

(** One row of the matrix, in the order the source lists the columns. *)
Definition effectiveness_row (fi wa wi ea li da ne : float)
  : gmap EchoElement float :=
  list_to_map [(FIRE, fi); (WATER, wa); (WIND, wi); (EARTH, ea);
               (LIGHT, li); (DARK, da); (NEUTRAL, ne)].

(** Type effectiveness matrix (attacker -> defender). *)
Definition TYPE_EFFECTIVENESS : gmap EchoElement (gmap EchoElement float) :=
  list_to_map
    [(FIRE,    effectiveness_row 0.5 0.5 2.0 2.0 1.0 1.0 1.0);
     (WATER,   effectiveness_row 2.0 0.5 0.5 2.0 1.0 1.0 1.0);
     (WIND,    effectiveness_row 0.5 2.0 0.5 0.5 1.0 1.0 1.0);
     (EARTH,   effectiveness_row 0.5 0.5 2.0 0.5 1.0 1.0 1.0);
     (LIGHT,   effectiveness_row 1.0 1.0 1.0 1.0 0.5 2.0 1.0);
     (DARK,    effectiveness_row 1.0 1.0 1.0 1.0 2.0 0.5 1.0);
     (NEUTRAL, effectiveness_row 1.0 1.0 1.0 1.0 1.0 1.0 1.0)].

(** [TYPE_EFFECTIVENESS.get(a, {}).get(d, 1.0)], as both call sites
    write it. *)
Definition effectiveness (a d : EchoElement) : float :=
  default 1.0 (default ∅ (TYPE_EFFECTIVENESS !! a) !! d).

(** The strict lookup [TYPE_EFFECTIVENESS[a][d]], with no default. *)
Definition effectiveness_entry (a d : EchoElement) : option float :=
  TYPE_EFFECTIVENESS !! a ≫= (.!! d).

(** Move type damage scaling: the attacking stat a category uses. *)
Definition MOVE_TYPE_SCALING : gmap string (option string) :=
  list_to_map [("physical", Some "atk"); ("special", Some "sp_atk");
               ("status", None)].

Definition CRITICAL_HIT_RATE : float := 0.05.
Definition CRITICAL_HIT_MULTIPLIER : float := 1.5.

(* ====================================================================== *)
(** * Data classes                                                         *)
(* ====================================================================== *)

(** A move: the dict of [MOVE_POOL], each key optional as [move.get]
    reads it.  Powers and accuracies are ints, as in the pool. *)
Module Move.
Record t := {
  name : option string;
  type : option string;
  power : option Z;
  accuracy : option Z;
  element : option EchoElement;
  effect : option string;
}.
End Move.
Abbreviation Move := Move.t.

(** [EchoStats] of [echo_generator.py]. *)
Record EchoStats := {
  hp : Z;
  atk : Z;
  def_ : Z;
  sp_atk : Z;
  sp_def : Z;
  spd : Z;
}.

(** [Echo] of [echo_generator.py]: the fields the engine reads. *)
Record Echo := {
  id : string;
  name : string;
  element : EchoElement;
  level : Z;
  base_stats : EchoStats;
  current_stats : EchoStats;
  moves : list Move;
}.

(** Damage calculation result. *)
Record DamageResult := {
  base_damage : Z;
  type_effectiveness : float;
  critical_hit : bool;
  final_damage : Z;
  move_accuracy : float;
  hit : bool;
}.

(** Current state of a battler. *)
Record CombatantState := {
  echo_id : string;
  echo : Echo;
  current_hp : Z;
  status_effects : list string;
  stat_modifiers : gmap string float;
  position : Z;
  is_defeated : bool;
}.

(** The modifier map a combatant is created with. *)
Definition default_stat_modifiers : gmap string float :=
  list_to_map [("atk", 1.0); ("def", 1.0); ("sp_atk", 1.0);
               ("sp_def", 1.0); ("spd", 1.0)]%float.

(** In-place field updates of a combatant. *)
Definition set_current_hp (c : CombatantState) (h : Z) : CombatantState :=
  {| echo_id := echo_id c; echo := echo c; current_hp := h;
     status_effects := status_effects c; stat_modifiers := stat_modifiers c;
     position := position c; is_defeated := is_defeated c |}.

Definition set_status_effects (c : CombatantState) (l : list string)
  : CombatantState :=
  {| echo_id := echo_id c; echo := echo c; current_hp := current_hp c;
     status_effects := l; stat_modifiers := stat_modifiers c;
     position := position c; is_defeated := is_defeated c |}.

Definition set_stat_modifiers (c : CombatantState) (m : gmap string float)
  : CombatantState :=
  {| echo_id := echo_id c; echo := echo c; current_hp := current_hp c;
     status_effects := status_effects c; stat_modifiers := m;
     position := position c; is_defeated := is_defeated c |}.

Definition set_is_defeated (c : CombatantState) (b : bool) : CombatantState :=
  {| echo_id := echo_id c; echo := echo c; current_hp := current_hp c;
     status_effects := status_effects c; stat_modifiers := stat_modifiers c;
     position := position c; is_defeated := b |}.

Local Close Scope float_scope.

(** [getattr(stats, stat_type)] for the two names [MOVE_TYPE_SCALING]
    can yield. *)
Definition getattr_stat (s : EchoStats) (stat_type : string) : Z :=
  if String.eqb stat_type "atk" then atk s else sp_atk s.

(* ====================================================================== *)
(** * The random module                                                    *)
(* ====================================================================== *)

(** The generator is a sequence of raw draws from [0.0, 1.0) and a cursor
    into it; every call consumes one draw. *)
Record Random := {
  draws : nat -> float;
  cursor : nat;
}.

(** [random.random()] *)
Definition random_random (g : Random) : float * Random :=
  (draws g (cursor g), {| draws := draws g; cursor := S (cursor g) |}).

(** [random.uniform(a, b)], which is [a + (b - a) * random()]. *)
Definition random_uniform (a b : float) (g : Random) : float * Random :=
  let '(u, g') := random_random g in ((a + (b - a) * u)%float, g').

(* ====================================================================== *)
(** * BattleEngine                                                         *)
(* ====================================================================== *)

(** The float the damage formula yields before type, STAB, critical and
    roll factors: [level_factor * (atk_stat / max(1, def_stat)) *
    move_power + 2]. *)
Definition base_damage_value (attacker defender : Echo) (move : Move)
    (stat_modifiers_atk stat_modifiers_def : gmap string float)
  : res float :=
  let move_type := default "physical" (Move.type move) in
  let move_power := default 0%Z (Move.power move) in
  scaling ← getitem MOVE_TYPE_SCALING move_type;
  match scaling with
  | None => Raise TypeError
  | Some stat_type =>
      let atk_stat := getattr_stat (current_stats attacker) stat_type in
      let def_stat :=
        if String.eqb stat_type "atk" then def_ (current_stats defender)
        else sp_def (current_stats defender) in
      (* Apply stat modifiers *)
      m_atk ← getitem stat_modifiers_atk stat_type;
      atk_f ← float_of_int atk_stat;
      atk_stat ← int_of_float (atk_f * m_atk);
      m_def ← getitem stat_modifiers_def
                (if String.eqb stat_type "sp_atk" then "sp_def" else "def");
      def_f ← float_of_int def_stat;
      def_stat ← int_of_float (def_f * m_def);
      (* Level scaling factor *)
      lv ← int_truediv (2 * level attacker) 5;
      let level_factor := ((lv + 2.0) / 250.0)%float in
      ratio ← int_truediv atk_stat (Z.max 1 def_stat);
      power_f ← float_of_int move_power;
      mret (level_factor * ratio * power_f + 2.0)%float
  end.

(** STAB: 1.5 if the move element matches the Echo element. *)
Definition stab_of (attacker : Echo) (move : Move) : float :=
  if bool_decide (Move.element move = Some (element attacker))
  then 1.5%float else 1.0%float.

Definition calculate_damage (attacker defender : Echo) (move : Move)
    (stat_modifiers_atk stat_modifiers_def : gmap string float)
    (g : Random) : res (DamageResult * Random) :=
  let move_type := default "physical" (Move.type move) in
  let accuracy := default 100%Z (Move.accuracy move) in
  (* Status moves don't deal direct damage *)
  if String.eqb move_type "status" then
    acc_f ← float_of_int accuracy;
    mret ({| base_damage := 0; type_effectiveness := 1.0;
             critical_hit := false; final_damage := 0;
             move_accuracy := (acc_f / 100.0)%float;
             hit := true |}, g)
  else
    base ← base_damage_value attacker defender move
             stat_modifiers_atk stat_modifiers_def;
    let type_eff := effectiveness (element attacker) (element defender) in
    let stab := stab_of attacker move in
    (* Critical hit chance *)
    let '(u_crit, g1) := random_random g in
    let is_critical := PrimFloat.ltb u_crit CRITICAL_HIT_RATE in
    let critical_mult :=
      if is_critical then CRITICAL_HIT_MULTIPLIER else 1.0%float in
    (* Randomness factor (85-100%) *)
    let '(randomness, g2) := random_uniform 0.85 1.0 g1 in
    (* Calculate final damage *)
    final ← int_of_float
              (base * type_eff * stab * critical_mult * randomness)%float;
    let final := Z.max 1 final in
    (* Check accuracy *)
    acc_f ← float_of_int accuracy;
    let hit_chance := (acc_f / 100.0)%float in
    let '(u_hit, g3) := random_random g2 in
    let is_hit := PrimFloat.ltb u_hit hit_chance in
    let final := if is_hit then final else 0%Z in
    base_int ← int_of_float base;
    mret ({| base_damage := base_int; type_effectiveness := type_eff;
             critical_hit := is_critical; final_damage := final;
             move_accuracy := hit_chance; hit := is_hit |}, g3).

(** [f"{effect}:{duration}"] *)
Definition encode_effect (effect : string) (duration : Z) : string :=
  effect +:+ ":" +:+ str_of_int duration.

(** [apply_status_effect(target, effect, duration)]: the returned flag and
    the target after the call. *)
Definition apply_status_effect (target : CombatantState) (effect : string)
    (duration : Z) : bool * CombatantState :=
  (* Prevent duplicate status effects *)
  if contains effect (status_effects target) then (false, target)
  else (true, set_status_effects target
                (status_effects target ++ [encode_effect effect duration])).

(** The default of the [duration] parameter. *)
Definition default_duration : Z := 3.

(** [effect_name, duration_str = effect_str.split(':')] *)
Definition unpack_effect (effect_str : string) : res (string * string) :=
  match split ":" effect_str with
  | [effect_name; duration_str] => Ok (effect_name, duration_str)
  | _ => Raise ValueError
  end.

(** Damage of one burn or poison tick: [int(base_stats.hp * 0.125)]. *)
Definition tick_damage (c : CombatantState) : res Z :=
  hp_f ← float_of_int (hp (base_stats (echo c)));
  int_of_float (hp_f * 0.125)%float.

(** The body of the loop of [update_status_effects]; the loop state is the
    combatant and the list [active_effects]. *)
Definition update_one_effect (st : CombatantState * list string)
    (effect_str : string) : res (CombatantState * list string) :=
  let '(combatant, active_effects) := st in
  '(effect_name, duration_str) ← unpack_effect effect_str;
  d ← int_of_string duration_str;
  let duration := d - 1 in
  (* Apply effect damage/penalties *)
  combatant ←
    (if String.eqb effect_name "burn" then
       dmg ← tick_damage combatant;
       mret (set_current_hp combatant (Z.max 0 (current_hp combatant - dmg)))
     else if String.eqb effect_name "poison" then
       dmg ← tick_damage combatant;
       mret (set_current_hp combatant (Z.max 0 (current_hp combatant - dmg)))
     else if String.eqb effect_name "paralysis" then
       m ← getitem (stat_modifiers combatant) "spd";
       mret (set_stat_modifiers combatant
               (<["spd" := (m * 0.5)%float]> (stat_modifiers combatant)))
     else mret combatant);
  (* Keep effect if duration remains *)
  mret (combatant,
        if 0 <? duration
        then active_effects ++ [encode_effect effect_name duration]
        else active_effects).

Definition update_status_effects (combatant : CombatantState)
  : res CombatantState :=
  '(combatant', active_effects) ←
    for_each update_one_effect (combatant, []) (status_effects combatant);
  mret (set_status_effects combatant' active_effects).

(** Stage to multiplier mapping. *)
Definition stage_multipliers : gmap Z float :=
  list_to_map
    [(-6, 0.25%float); (-5, 0.29%float); (-4, 0.33%float);
     (-3, 0.43%float); (-2, 0.50%float); (-1, 0.67%float);
     (0, 1.0%float); (1, 1.5%float); (2, 2.0%float); (3, 2.5%float);
     (4, 3.0%float); (5, 3.5%float); (6, 4.0%float)].

Definition modify_stat (combatant : CombatantState) (stat : string)
    (stages : Z) : res CombatantState :=
  (* Clamp to ±6 stages *)
  let stages := Z.max (-6) (Z.min 6 stages) in
  m ← getitem stage_multipliers stages;
  mret (set_stat_modifiers combatant
          (<[stat := m]> (stat_modifiers combatant))).

(** [execute_move(attacker, defender, move)]: the returned triple, the
    defender after the call, and the generator. *)
Definition execute_move (attacker defender : CombatantState) (move : Move)
    (g : Random)
  : res ((Z * DamageResult * string) * CombatantState * Random) :=
  let move_name := default "Unknown Move" (Move.name move) in
  (* Calculate damage *)
  '(damage_result, g') ←
    calculate_damage (echo attacker) (echo defender) move
      (stat_modifiers attacker) (stat_modifiers defender) g;
  (* Build log message *)
  let message := name (echo attacker) +:+ " used " +:+ move_name +:+ "!" in
  if negb (hit damage_result) then
    mret ((0, damage_result, message +:+ " But it missed!"), defender, g')
  else
    let message :=
      if critical_hit damage_result then message +:+ " Critical hit!"
      else message in
    (* Apply damage *)
    let damage_dealt := final_damage damage_result in
    let defender :=
      set_current_hp defender (Z.max 0 (current_hp defender - damage_dealt)) in
    (* Check for defeat *)
    let '(defender', message) :=
      if current_hp defender =? 0
      then (set_is_defeated defender true,
            message +:+ " " +:+ name (echo defender)
            +:+ " has been defeated!")
      else (defender, message) in
    (* Apply type effectiveness message *)
    let te := type_effectiveness damage_result in
    let message :=
      if PrimFloat.ltb 1.5 te then message +:+ " It's super effective!"
      else if PrimFloat.ltb 1.0 te then message +:+ " It's effective."
      else if PrimFloat.ltb te 0.5
           then message +:+ " It's not very effective..."
      else message in
    (* Apply status effect if move has one *)
    match Move.effect move with
    | Some (String c e) =>
        let effect := String c e in
        let '(applied, defender'') :=
          apply_status_effect defender' effect default_duration in
        let message :=
          if applied
          then message +:+ " " +:+ name (echo defender) +:+ " is now "
               +:+ effect +:+ "!"
          else message in
        mret ((damage_dealt, damage_result, message), defender'', g')
    | _ => mret ((damage_dealt, damage_result, message), defender', g')
    end.

(** Truth value of a move dict: false only for the empty dict. *)
Definition move_truthy (m : Move) : bool :=
  bool_decide (is_Some (Move.name m))
  || bool_decide (is_Some (Move.type m))
  || bool_decide (is_Some (Move.power m))
  || bool_decide (is_Some (Move.accuracy m))
  || bool_decide (is_Some (Move.element m))
  || bool_decide (is_Some (Move.effect m)).

(** The score of one (move, target) pair in [ai_choose_move]. *)
Definition ai_score (attacker : CombatantState) (move : Move)
    (target : CombatantState) : res float :=
  let type_eff :=
    effectiveness (element (echo attacker)) (element (echo target)) in
  let base_power := default 20 (Move.power move) in
  acc_f ← float_of_int (default 100 (Move.accuracy move));
  let accuracy := (acc_f / 100.0)%float in
  target_hp_ratio ←
    int_truediv (current_hp target)
                (Z.max 1 (hp (base_stats (echo target))));
  power_f ← float_of_int base_power;
  mret ((power_f * type_eff * accuracy) - (target_hp_ratio * 20.0))%float.

(** Loop state of the selection: best move, best target, best score.  The
    initial score is the int -999, which compares with a float as the
    float -999.0 does. *)
Definition ai_best : Type :=
  option Move * option CombatantState * float.

Definition ai_consider (attacker : CombatantState) (move : Move)
    (best : ai_best) (target : CombatantState) : res ai_best :=
  let '(best_move, best_target, best_score) := best in
  score ← ai_score attacker move target;
  if PrimFloat.ltb best_score score
  then mret (Some move, Some target, score)
  else mret best.

Definition ai_choose_move (attacker : CombatantState)
    (defenders : list CombatantState) : res (Move * CombatantState) :=
  (* Filter out defeated defenders *)
  let alive_targets := filter (fun d => is_defeated d = false) defenders in
  match alive_targets with
  | [] =>
      (* Should not happen, but failsafe *)
      m ← first (moves (echo attacker));
      t ← first alive_targets;
      mret (m, t)
  | _ =>
      '(best_move, best_target, _) ←
        for_each
          (fun best move =>
             for_each (ai_consider attacker move) best alive_targets)
          (None, None, (-999.0)%float) (moves (echo attacker));
      m ← match best_move with
          | Some m => if move_truthy m then Ok m
                      else first (moves (echo attacker))
          | None => first (moves (echo attacker))
          end;
      t ← match best_target with
          | Some t => Ok t
          | None => first alive_targets
          end;
      mret (m, t)
  end.

(** Check if battle is finished (one side defeated): the two teams are
    the two halves of the list. *)
Definition is_battle_finished (combatants : list CombatantState) : bool :=
  let half := (length combatants / 2)%nat in
  let team_1_defeated := forallb is_defeated (take half combatants) in
  let team_2_defeated := forallb is_defeated (drop half combatants) in
  team_1_defeated || team_2_defeated.

(* ====================================================================== *)
(** * Battle utility functions                                             *)
(* ====================================================================== *)

(** The dict [calculate_battle_rewards] returns. *)
Record Rewards := {
  experience : Z;
  currency : Z;
  bonus_multiplier : float;
}.

(** The body of the loop over the losers; the loop state is
    [(total_exp, total_currency)]. *)
Definition reward_for (winner : CombatantState) (totals : Z * Z)
    (loser : CombatantState) : res (Z * Z) :=
  let base_exp := 100 in
  let base_currency := 50 in
  let '(total_exp, total_currency) := totals in
  (* Experience scales with level difference *)
  let level_diff := level (echo loser) - level (echo winner) in
  diff_f ← float_of_int level_diff;
  let exp_mult := (1.0 + diff_f * 0.1)%float in
  let exp_mult := fmax 0.5 exp_mult in
  exp_f ← float_of_int (base_exp + level (echo loser) * 2);
  exp_gained ← int_of_float (exp_f * exp_mult)%float;
  cur_f ← float_of_int (base_currency + level (echo loser));
  currency_gained ← int_of_float (cur_f * exp_mult)%float;
  mret (total_exp + exp_gained, total_currency + currency_gained).

Definition calculate_battle_rewards (winner : CombatantState)
    (losers : list CombatantState) : res Rewards :=
  '(total_exp, total_currency) ← for_each (reward_for winner) (0, 0) losers;
  extra_f ← float_of_int (Z.of_nat (length losers) - 1);
  mret {| experience := total_exp; currency := total_currency;
          bonus_multiplier := (1.0 + extra_f * 0.1)%float |}.

(* ====================================================================== *)
(** * Turn order                                                           *)
(* ====================================================================== *)

(** One step of a stable ascending insertion: [x] goes before the first
    element it is strictly less than, hence after its equals. *)
Fixpoint insort {A} (lt : A -> A -> bool) (x : A) (l : list A) : list A :=
  match l with
  | [] => [x]
  | y :: l' => if lt x y then x :: y :: l' else y :: insort lt x l'
  end.

(** A stable ascending sort that only asks [lt], as [list.sort] does.  On
    keys that [<] orders totally every stable sort returns this list. *)
Definition stable_sort {A} (lt : A -> A -> bool) (l : list A) : list A :=
  foldl (fun acc x => insort lt x acc) [] l.

(** [sorted(l, key=..., reverse=True)] on a list already paired with its
    keys: the list is reversed, sorted ascending and stably on the keys,
    and reversed again, so equal keys keep their original order. *)
Definition key_lt {A} (a b : float * A) : bool := PrimFloat.ltb (fst a) (fst b).

Definition sorted_reverse {A} (keyed : list (float * A)) : list (float * A) :=
  rev (stable_sort key_lt (rev keyed)).

(** [get_speed_priority(combatant)]: the speed stat with the modifier
    applied, times a jitter drawn from [0.95, 1.05]. *)
Definition get_speed_priority (combatant : CombatantState) (g : Random)
  : res (float * Random) :=
  m ← getitem (stat_modifiers combatant) "spd";
  spd_f ← float_of_int (spd (current_stats (echo combatant)));
  let speed := (spd_f * m)%float in
  let '(randomness, g') := random_uniform 0.95 1.05 g in
  mret ((speed * randomness)%float, g').

(** The keys of the whole list, computed front to back before any
    comparison, one draw each. *)
Fixpoint speed_keys (combatants : list CombatantState) (g : Random)
  : res (list (float * CombatantState) * Random) :=
  match combatants with
  | [] => Ok ([], g)
  | c :: rest =>
      '(k, g1) ← get_speed_priority c g;
      '(keyed, g2) ← speed_keys rest g1;
      mret ((k, c) :: keyed, g2)
  end.

(** Sort by speed descending (higher speed = earlier turn). *)
Definition calculate_turn_order (combatants : list CombatantState)
    (g : Random) : res (list CombatantState * Random) :=
  '(keyed, g') ← speed_keys combatants g;
  mret (map snd (sorted_reverse keyed), g').

(* ====================================================================== *)
(** * Battle summary                                                       *)
(* ====================================================================== *)

(** Battle action types. *)
Inductive ActionType : Set := ATTACK | DEFEND | ABILITY | SWITCH | ITEM.

(** Battle event log entry.  A timestamp is a naive [datetime], held as
    its count of microseconds. *)
Module BattleLog.
Record t := {
  round : Z;
  timestamp : Z;
  actor_id : string;
  action_type : ActionType;
  target_id : string;
  damage_dealt : Z;
  healing : Z;
  status_effect : option string;
  message : string;
}.
End BattleLog.
Abbreviation BattleLog := BattleLog.t.

(** A Python number that is either an int or a float. *)
Inductive number : Type :=
| Int (n : Z)
| Float (x : float).

(** The dict [get_battle_summary] returns. *)
Record BattleSummary := {
  total_rounds : Z;
  winners : list string;
  losers : list string;
  total_actions : Z;
  total_damage_dealt : Z;
  duration_seconds : number;
}.

(** [max(l)] on a non-empty list of ints, given as head and tail. *)
Definition max_of (x : Z) (l : list Z) : Z := foldl Z.max x l.

(** [sum(l)] on a list of ints. *)
Definition sum_of (l : list Z) : Z := foldl Z.add 0 l.

(** [(b - a).total_seconds()] on two timestamps: the microseconds of the
    difference divided by [10**6]. *)
Definition total_seconds (b a : Z) : res float :=
  int_truediv (b - a) 1000000.

Definition get_battle_summary (winners losers : list CombatantState)
    (battle_log : list BattleLog) : res BattleSummary :=
  let total_rounds :=
    match map BattleLog.round battle_log with
    | [] => 0
    | r :: rs => max_of r rs
    end in
  duration ←
    match battle_log with
    | [] => Ok (Int 0)
    | first_log :: _ =>
        d ← total_seconds
              (BattleLog.timestamp (List.last battle_log first_log))
              (BattleLog.timestamp first_log);
        mret (Float d)
    end;
  mret {| total_rounds := total_rounds;
          winners := map (fun w => name (echo w)) winners;
          losers := map (fun l => name (echo l)) losers;
          total_actions := Z.of_nat (length battle_log);
          total_damage_dealt := sum_of (map BattleLog.damage_dealt battle_log);
          duration_seconds := duration |}.

(* ====================================================================== *)
(** * Specification-side definitions                                       *)
(* ====================================================================== *)

(** The final damage of a connecting hit as the specification words it:
    [max(1, round(base * effectiveness * stab * critical_mult * roll))]. *)
Definition spec_final_damage (base eff stab critical_mult roll : float)
  : res Z :=
  n ← Py.round (base * eff * stab * critical_mult * roll)%float;
  mret (Z.max 1 n).

(** The same product as the code finishes it: [max(1, int(...))]. *)
Definition code_final_damage (base eff stab critical_mult roll : float)
  : res Z :=
  n ← int_of_float (base * eff * stab * critical_mult * roll)%float;
  mret (Z.max 1 n).

(** The stage a call of [modify_stat] looks up. *)
Definition clamp_stage (stages : Z) : Z := Z.max (-6) (Z.min 6 stages).

(** The invariant relating HP and the defeat flag. *)
Definition hp_defeat_invariant (c : CombatantState) : Prop :=
  current_hp c = 0 -> is_defeated c = true.

(** Number of entries of an active list whose name is [effect]. *)
Definition count_effect (effect : string) (l : list string) : nat :=
  length (filter (fun s => head (split ":" s) = Some effect) l).

(** Auxiliaries on decimal numerals. *)
Fixpoint all_digits (s : string) : bool :=
  match s with
  | EmptyString => true
  | String c s' => is_digit c && all_digits s'
  end.

Fixpoint no_colon (s : string) : bool :=
  match s with
  | EmptyString => true
  | String c s' => negb (Ascii.eqb c ":") && no_colon s'
  end.

Fixpoint uint_value (acc : Z) (d : Decimal.uint) : Z :=
  match d with
  | Decimal.Nil => acc
  | Decimal.D0 l => uint_value (10 * acc) l
  | Decimal.D1 l => uint_value (10 * acc + 1) l
  | Decimal.D2 l => uint_value (10 * acc + 2) l
  | Decimal.D3 l => uint_value (10 * acc + 3) l
  | Decimal.D4 l => uint_value (10 * acc + 4) l
  | Decimal.D5 l => uint_value (10 * acc + 5) l
  | Decimal.D6 l => uint_value (10 * acc + 6) l
  | Decimal.D7 l => uint_value (10 * acc + 7) l
  | Decimal.D8 l => uint_value (10 * acc + 8) l
  | Decimal.D9 l => uint_value (10 * acc + 9) l
  end.



(** An active list written from (name, remaining turns) pairs. *)
Definition encode_all (l : list (string * Z)) : list string :=
  map (fun p => encode_effect (fst p) (snd p)) l.

(** The pairs left after one tick: every counter one lower, the entries
    that reach zero gone. *)
Definition tick_durations (l : list (string * Z)) : list (string * Z) :=
  filter (fun p => 0 < snd p) (map (fun p => (fst p, snd p - 1)) l).

(** The pairs left after [n] ticks. *)
Definition after_ticks (n : nat) (l : list (string * Z))
  : list (string * Z) :=
  filter (fun p => 0 < snd p)
         (map (fun p => (fst p, snd p - Z.of_nat n)) l).

(** [n] ticks of a combatant in a row, one per round. *)
Fixpoint ticks (n : nat) (c : CombatantState) : res CombatantState :=
  match n with
  | O => Ok c
  | S n' => c' ← update_status_effects c; ticks n' c'
  end.

(** The names a tick acts on. *)
Definition has_tick_consequence (effect_name : string) : bool :=
  String.eqb effect_name "burn" || String.eqb effect_name "poison"
  || String.eqb effect_name "paralysis".

(** Number of occurrences of a character. *)
Fixpoint count_char (sep : ascii) (s : string) : nat :=
  match s with
  | EmptyString => O
  | String c s' => (if Ascii.eqb c sep then 1 else 0) + count_char sep s'
  end.

(** The integers [lo, lo + 1, ..., lo + n - 1]. *)
Fixpoint range_from (lo : Z) (n : nat) : list Z :=
  match n with
  | O => []
  | S n' => lo :: range_from (lo + 1) n'
  end.

(** Whether a burn or poison tick on [h] maximum HP costs [h // 8]. *)
Definition tick_damage_is_eighth (h : Z) : bool :=
  match hp_f ← float_of_int h; int_of_float (hp_f * 0.125)%float with
  | Ok d => d =? h / 8
  | Raise _ => false
  end.

(** A computation whose exceptions, if any, all satisfy [P]. *)
Definition raises_only {A} (P : exn -> Prop) (m : res A) : Prop :=
  forall e, m = Raise e -> P e.

(** The exceptions of a lookup or of a numeric conversion. *)
Definition key_or_numeric (e : exn) : Prop :=
  e = KeyError \/ e = OverflowError \/ e = ValueError.

(** The best pair of the selection loop is made of a move of the attacker
    and of a target of the live list. *)
Definition ai_chosen_from (attacker : CombatantState)
    (alive : list CombatantState) (best : ai_best) : Prop :=
  (forall m, fst (fst best) = Some m -> m ∈ moves (echo attacker)) /\
  (forall t, snd (fst best) = Some t -> t ∈ alive).

(** The damage roll of a calculation started with generator [g]: the
    second draw, scaled into [0.85, 1.0]. *)
Definition damage_roll (g : Random) : float :=
  fst (random_uniform 0.85 1.0 (snd (random_random g))).

(* ====================================================================== *)
(** * Scenarios                                                            *)
(* ====================================================================== *)

Module Scenario.

(** ['Tackle'] of [MOVE_POOL], and a move of power 80. *)
Definition tackle : Move :=
  {| Move.name := Some "Tackle"; Move.type := Some "physical";
     Move.power := Some 40; Move.accuracy := Some 100;
     Move.element := None; Move.effect := None |}.

Definition strike : Move :=
  {| Move.name := Some "Strike"; Move.type := Some "physical";
     Move.power := Some 80; Move.accuracy := Some 100;
     Move.element := None; Move.effect := None |}.

Definition stats (h a d : Z) : EchoStats :=
  {| hp := h; atk := a; def_ := d; sp_atk := a; sp_def := d; spd := 50 |}.

Definition make_echo (n : string) (lv h a d : Z) : Echo :=
  {| id := n; name := n; element := NEUTRAL; level := lv;
     base_stats := stats h a d; current_stats := stats h a d;
     moves := [tackle] |}.

(** A combatant as a battle creates it: full HP, no effects, identity
    modifiers, not defeated. *)
Definition make_combatant (e : Echo) : CombatantState :=
  {| echo_id := id e; echo := e; current_hp := hp (current_stats e);
     status_effects := []; stat_modifiers := default_stat_modifiers;
     position := 0; is_defeated := false |}.

(** A generator with the given first three draws. *)
Definition fixed_draws (a b c : float) : Random :=
  {| draws := fun n => match n with
                       | O => a | S O => b | _ => c
                       end;
     cursor := 0 |}.

(** The three-combatant battle [A(hp=1), B(hp=100)] versus [C(hp=100)]. *)
Definition A : CombatantState := make_combatant (make_echo "A" 5 1 50 50).
Definition B : CombatantState := make_combatant (make_echo "B" 5 100 50 50).
Definition C : CombatantState := make_combatant (make_echo "C" 5 100 50 50).
Definition D : CombatantState := make_combatant (make_echo "D" 5 100 50 50).

(** [A] once a hit has brought it down. *)
Definition A_defeated : CombatantState :=
  set_is_defeated (set_current_hp A 0) true.

(** The end-to-end damage scenario: attacker level 50 with atk 100,
    defender with def 50, move power 80, neutral elements. *)
Definition attacker50 : Echo := make_echo "Attacker" 50 100 100 50.
Definition defender50 : Echo := make_echo "Defender" 50 100 100 50.

(** No critical (draw 0.5), lowest damage roll (draw 0.0), hit (draw 0.0). *)
Definition low_roll : Random := fixed_draws 0.5 0.0 0.0.

(** A combatant with 10 HP left out of 100 and an active burn. *)
Definition burned : CombatantState :=
  set_status_effects (set_current_hp B 10) [encode_effect "burn" 3].

(** A combatant with an active paralysis. *)
Definition paralysed : CombatantState :=
  set_status_effects B [encode_effect "paralysis" 3].

End Scenario.

(** A combatant of a given level, for the reward formulas, which read
    nothing else. *)
Definition of_level (lv : Z) : CombatantState :=
  Scenario.make_combatant (Scenario.make_echo "" lv 1 1 1).

(** Whether the reward for a loser of level [l] against a winner of level
    [w] keeps the floors of the formula: at least half of the base
    amounts, and at least the full base amounts when the loser's level is
    not below the winner's. *)
Definition reward_floor_ok (w l : Z) : bool :=
  match reward_for (of_level w) (0, 0) (of_level l) with
  | Ok (e, c) =>
      (50 + l <=? e) && ((50 + l) / 2 <=? c)
      && implb (w <=? l) ((100 + 2 * l <=? e) && (50 + l <=? c))
  | Raise _ => false
  end.

(* ====================================================================== *)
(** * Facts about the run-time layer                                       *)
(* ====================================================================== *)

Section StringFacts.

Lemma is_digit_chars (c : ascii) :
  is_digit c = true ->
  is_space c = false /\ Ascii.eqb c ":" = false /\
  Ascii.eqb c "-" = false /\ Ascii.eqb c "+" = false.
Proof.
  destruct c as [[] [] [] [] [] [] [] []]; vm_compute; intuition congruence.
Qed.

Lemma string_of_uint_all_digits (d : Decimal.uint) :
  all_digits (NilEmpty.string_of_uint d) = true.
Proof. induction d; simpl; auto. Qed.

Lemma split_all_digits (s : string) :
  all_digits s = true -> split ":" s = [s].
Proof.
  induction s as [|c s IH]; simpl; [reflexivity|].
  intros [Hc Hs]%andb_prop.
  destruct (is_digit_chars c Hc) as (_ & -> & _).
  rewrite (IH Hs). reflexivity.
Qed.

Lemma rstrip_all_digits (s : string) :
  all_digits s = true -> rstrip s = s.
Proof.
  induction s as [|c s IH]; simpl; [reflexivity|].
  intros [Hc Hs]%andb_prop.
  rewrite (IH Hs).
  destruct (is_digit_chars c Hc) as (-> & _).
  destruct s; reflexivity.
Qed.

Lemma lstrip_all_digits (s : string) :
  all_digits s = true -> lstrip s = s.
Proof.
  destruct s as [|c s]; simpl; [reflexivity|].
  intros [Hc _]%andb_prop.
  destruct (is_digit_chars c Hc) as (-> & _). reflexivity.
Qed.

Lemma parse_digits_uint (d : Decimal.uint) (acc : Z) (b : bool) :
  d <> Decimal.Nil ->
  parse_digits acc b (NilEmpty.string_of_uint d) = Some (uint_value acc d).
Proof.
  revert acc b.
  induction d as [|d IH|d IH|d IH|d IH|d IH|d IH|d IH|d IH|d IH|d IH];
    intros acc b Hd; [congruence|..];
    cbn [NilEmpty.string_of_uint uint_value];
    match goal with
    | |- parse_digits ?a ?b (String ?c ?s) = _ =>
        change (parse_digits a b (String c s))
          with (parse_digits (10 * a + digit_value c) true s)
    end;
    match goal with
    | |- context [digit_value ?c] =>
        let v := eval vm_compute in (digit_value c) in
        change (digit_value c) with v
    end;
    rewrite ?Z.add_0_r;
    (destruct d; [reflexivity | apply IH; discriminate ..]).
Qed.

Lemma uint_value_of_uint_acc (d : Decimal.uint) (p : positive) :
  Z.pos (Pos.of_uint_acc d p) = uint_value (Z.pos p) d.
Proof.
  revert p; induction d; intros p; cbn [Pos.of_uint_acc uint_value];
    [reflexivity|..]; rewrite IHd; f_equal; lia.
Qed.

Lemma uint_value_of_uint (d : Decimal.uint) :
  uint_value 0 d = Z.of_N (Pos.of_uint d).
Proof.
  induction d; cbn [Pos.of_uint uint_value Z.of_N];
    rewrite ?Z.mul_0_r, ?Z.add_0_l; auto using uint_value_of_uint_acc.
Qed.

Lemma uint_value_to_uint (p : positive) :
  uint_value 0 (Pos.to_uint p) = Z.pos p.
Proof.
  rewrite uint_value_of_uint, DecimalPos.Unsigned.of_to. reflexivity.
Qed.

Lemma str_of_int_cases (z : Z) :
  exists d, d <> Decimal.Nil /\
    ((0 <= z /\ str_of_int z = NilEmpty.string_of_uint d /\
      uint_value 0 d = z) \/
     (z < 0 /\ str_of_int z = String "-" (NilEmpty.string_of_uint d) /\
      uint_value 0 d = - z)).
Proof.
  destruct z as [|p|p].
  - exists (Decimal.D0 Decimal.Nil). split; [discriminate|]. left.
    repeat split; reflexivity || lia.
  - exists (Pos.to_uint p).
    pose proof (DecimalPos.Unsigned.to_uint_nonnil p) as Hn.
    split; [exact Hn|]. left. split; [lia|split; [|apply uint_value_to_uint]].
    unfold str_of_int; cbn [Z.to_int NilZero.string_of_int].
    unfold NilZero.string_of_uint. destruct (Pos.to_uint p); congruence.
  - exists (Pos.to_uint p).
    pose proof (DecimalPos.Unsigned.to_uint_nonnil p) as Hn.
    split; [exact Hn|]. right. split; [lia|split; [|apply uint_value_to_uint]].
    unfold str_of_int; cbn [Z.to_int NilZero.string_of_int].
    unfold NilZero.string_of_uint. destruct (Pos.to_uint p); congruence.
Qed.

(** [int(str(n)) == n] *)
Lemma int_of_string_str_of_int (z : Z) :
  int_of_string (str_of_int z) = Ok z.
Proof.
  destruct (str_of_int_cases z) as (d & Hd & [(Hz & -> & Hv)|(Hz & -> & Hv)]);
    pose proof (string_of_uint_all_digits d) as Hall;
    unfold int_of_string, strip.
  - rewrite (lstrip_all_digits _ Hall), (rstrip_all_digits _ Hall).
    destruct (NilEmpty.string_of_uint d) as [|c s] eqn:E.
    + destruct d; try discriminate; congruence.
    + cbn [all_digits] in Hall. apply andb_prop in Hall as [Hc _].
      destruct (is_digit_chars c Hc) as (_ & _ & -> & ->).
      rewrite <- E, (parse_digits_uint _ _ _ Hd), Hv. reflexivity.
  - cbn [lstrip]. change (is_space "-") with false. cbv iota.
    cbn [rstrip]. rewrite (rstrip_all_digits _ Hall).
    destruct (NilEmpty.string_of_uint d) as [|c s] eqn:E.
    + destruct d; try discriminate; congruence.
    + change (Ascii.eqb "-" "-") with true. cbv iota.
      rewrite <- E, (parse_digits_uint _ _ _ Hd), Hv.
      f_equal. lia.
Qed.

Lemma split_str_of_int (z : Z) : split ":" (str_of_int z) = [str_of_int z].
Proof.
  destruct (str_of_int_cases z) as (d & Hd & [(Hz & -> & Hv)|(Hz & -> & Hv)]);
    pose proof (string_of_uint_all_digits d) as Hall.
  - apply split_all_digits, Hall.
  - cbn [split]. change (Ascii.eqb "-" ":") with false. cbv iota.
    rewrite (split_all_digits _ Hall). reflexivity.
Qed.

Lemma append_nil_l (s : string) : "" +:+ s = s.
Proof. reflexivity. Qed.

Lemma append_cons (c : ascii) (s t : string) :
  String c s +:+ t = String c (s +:+ t).
Proof. reflexivity. Qed.

Lemma split_encode_effect (effect : string) (duration : Z) :
  no_colon effect = true ->
  split ":" (encode_effect effect duration) = [effect; str_of_int duration].
Proof.
  unfold encode_effect. induction effect as [|c s IH]; intros Hc.
  - rewrite append_nil_l, append_cons, append_nil_l. cbn [split].
    change (Ascii.eqb ":" ":") with true. cbv iota.
    rewrite split_str_of_int. reflexivity.
  - cbn [no_colon] in Hc. apply andb_prop in Hc as [Hc Hs].
    apply negb_true_iff in Hc.
    rewrite append_cons. cbn [split]. rewrite Hc, (IH Hs). reflexivity.
Qed.

(** Decoding an entry the engine has encoded gives its parts back. *)
Lemma unpack_encode_effect (effect : string) (duration : Z) :
  no_colon effect = true ->
  unpack_effect (encode_effect effect duration)
  = Ok (effect, str_of_int duration).
Proof.
  intros Hc. unfold unpack_effect. rewrite (split_encode_effect _ _ Hc).
  reflexivity.
Qed.

(** An encoded entry is never equal to the bare effect name. *)
Lemma encode_effect_neq (effect : string) (duration : Z) :
  encode_effect effect duration <> effect.
Proof.
  unfold encode_effect. induction effect as [|c s IH].
  - rewrite append_nil_l, append_cons. discriminate.
  - rewrite append_cons. intros [= H]. exact (IH H).
Qed.

End StringFacts.

(* ====================================================================== *)
(** * Type effectiveness                                                   *)
(* ====================================================================== *)

(** C8: the type-effectiveness lookup is total over every pair of elements
    (the matrix has an entry for each pair, so the default is never used),
    every entry is one of 0.5, 1.0 and 2.0, and the entries agree with the
    fixed table, in particular fire->wind = 2.0 and wind->fire = 0.5. *)
Theorem effectiveness_total_in_range :
  (forall a d : EchoElement,
      effectiveness_entry a d = Some (effectiveness a d) /\
      (effectiveness a d = 0.5 \/ effectiveness a d = 1.0 \/
       effectiveness a d = 2.0)%float) /\
  (effectiveness FIRE WIND = 2.0 /\ effectiveness WIND FIRE = 0.5 /\
   effectiveness WATER FIRE = 2.0 /\ effectiveness FIRE WATER = 0.5 /\
   effectiveness LIGHT DARK = 2.0 /\ effectiveness DARK LIGHT = 2.0)%float /\
  (forall d, effectiveness NEUTRAL d = 1.0%float) /\
  (forall a, effectiveness a NEUTRAL = 1.0%float).
Proof.
  split; [|split; [|split]].
  - intros a d; split; [destruct a, d; reflexivity|].
    destruct a, d; vm_compute; auto.
  - repeat split; reflexivity.
  - intros []; reflexivity.
  - intros []; reflexivity.
Qed.

(* ====================================================================== *)
(** * Battle termination                                                   *)
(* ====================================================================== *)

Section Termination.

Import Scenario.

Lemma forallb_Forall_defeated (l : list CombatantState) :
  forallb is_defeated l = true <-> Forall (fun c => is_defeated c = true) l.
Proof.
  induction l as [|c l IH]; cbn [forallb].
  - split; [constructor|reflexivity].
  - rewrite andb_true_iff, IH, Forall_cons. reflexivity.
Qed.

(** C1, as stated, fails: with the list [[A; B; C]] the first team is [A]
    alone, so once [A] is defeated the check answers true although [B] is
    alive. *)
Lemma is_battle_finished_three_counterexample :
  is_defeated A_defeated = true /\ current_hp A_defeated = 0 /\
  is_defeated B = false /\ is_defeated C = false /\
  ~ (is_battle_finished [A_defeated; B; C] = false).
Proof. repeat split; try reflexivity. vm_compute. discriminate. Qed.

(** C1, amended: the battle is finished exactly when every combatant among
    the first [len // 2] entries is defeated or every combatant among the
    remaining entries is defeated.  On [[A; B; C]] the first team is [A]
    alone, so the check answers true once [A] is defeated; with two teams
    of two, [[A; B]] versus [[C; D]], it answers false after [A] alone is
    defeated. *)
Theorem is_battle_finished_iff (combatants : list CombatantState) :
  (is_battle_finished combatants = true <->
     Forall (fun c => is_defeated c = true)
            (take (length combatants / 2) combatants) \/
     Forall (fun c => is_defeated c = true)
            (drop (length combatants / 2) combatants)) /\
  is_battle_finished [A_defeated; B; C] = true /\
  is_battle_finished [A_defeated; B; C; D] = false.
Proof.
  split; [|split; reflexivity].
  unfold is_battle_finished.
  rewrite orb_true_iff, !forallb_Forall_defeated. reflexivity.
Qed.

End Termination.

(* ====================================================================== *)
(** * Status effects                                                       *)
(* ====================================================================== *)

Section StatusEffects.

Import Scenario.

(** What the duplicate check of [apply_status_effect] really tests: the
    bare name against the encoded entries. *)
Lemma apply_status_effect_spec (target : CombatantState) (effect : string)
    (duration : Z) :
  apply_status_effect target effect duration =
    if bool_decide (effect ∈ status_effects target) then (false, target)
    else (true, set_status_effects target
                  (status_effects target ++ [encode_effect effect duration])).
Proof. reflexivity. Qed.

Lemma contains_encoded_false (effect : string) (duration : Z) :
  contains effect [encode_effect effect duration] = false.
Proof.
  unfold contains. apply bool_decide_eq_false.
  intros H%list_elem_of_singleton.
  exact (encode_effect_neq effect duration (eq_sym H)).
Qed.

(** C2 fails on the code: the membership test compares the bare effect
    name with the stored ["name:duration"] entries, so it never finds an
    effect the engine has applied.  Applying any effect twice in a row
    succeeds twice and stores two entries; in particular a combatant
    already carrying ["burn:3"] accepts ["burn"] again and then lists the
    name twice. *)
Theorem apply_status_effect_twice_stacks :
  (forall (target : CombatantState) (effect : string) (duration : Z),
      let fresh := set_status_effects target [] in
      let first_call := apply_status_effect fresh effect duration in
      let second_call := apply_status_effect (snd first_call) effect duration in
      fst first_call = true /\ fst second_call = true /\
      status_effects (snd second_call)
      = [encode_effect effect duration; encode_effect effect duration]) /\
  status_effects burned = ["burn:3"] /\
  fst (apply_status_effect burned "burn" 3) = true /\
  status_effects (snd (apply_status_effect burned "burn" 3))
  = ["burn:3"; "burn:3"] /\
  count_effect "burn"
    (status_effects (snd (apply_status_effect burned "burn" 3))) = 2%nat.
Proof.
  split; [|repeat split; reflexivity].
  intros target effect duration; cbn zeta.
  assert (E1 : apply_status_effect (set_status_effects target []) effect
                 duration
               = (true, set_status_effects target
                          [encode_effect effect duration])) by reflexivity.
  rewrite E1; cbn [fst snd].
  unfold apply_status_effect; cbn [status_effects set_status_effects].
  rewrite contains_encoded_false. cbn. auto.
Qed.

(** The loop of a tick never touches the defeat flag. *)
Lemma update_one_effect_is_defeated (st st' : CombatantState * list string)
    (effect_str : string) :
  update_one_effect st effect_str = Ok st' ->
  is_defeated (fst st') = is_defeated (fst st).
Proof.
  destruct st as [c active]. unfold update_one_effect.
  destruct (unpack_effect effect_str) as [[n ds]|]; cbn; [|discriminate].
  destruct (int_of_string ds) as [d|]; cbn; [|discriminate].
  destruct (String.eqb n "burn");
    [|destruct (String.eqb n "poison");
      [|destruct (String.eqb n "paralysis")]].
  - destruct (tick_damage c); cbn; [|discriminate].
    intros [= <-]. reflexivity.
  - destruct (tick_damage c); cbn; [|discriminate].
    intros [= <-]. reflexivity.
  - destruct (getitem (stat_modifiers c) "spd"); cbn; [|discriminate].
    intros [= <-]. reflexivity.
  - cbn. intros [= <-]. reflexivity.
Qed.

Lemma for_each_update_is_defeated (l : list string)
    (st st' : CombatantState * list string) :
  for_each update_one_effect st l = Ok st' ->
  is_defeated (fst st') = is_defeated (fst st).
Proof.
  revert st; induction l as [|e l IH]; intros st; cbn [for_each].
  - intros [= <-]. reflexivity.
  - destruct (update_one_effect st e) as [st1|] eqn:E; cbn; [|discriminate].
    intros H. rewrite (IH _ H). eapply update_one_effect_is_defeated, E.
Qed.

(** A status tick returns the combatant with the defeat flag it had. *)
Lemma update_status_effects_is_defeated (c c' : CombatantState) :
  update_status_effects c = Ok c' -> is_defeated c' = is_defeated c.
Proof.
  unfold update_status_effects.
  destruct (for_each _ _ _) as [[c1 active]|] eqn:E; cbn; [|discriminate].
  intros [= <-]. cbn. exact (for_each_update_is_defeated _ _ _ E).
Qed.

(** C4 fails on the code: a burn tick on a combatant with 10 HP left out
    of 100 brings the HP to 0 and leaves [is_defeated] false, so the
    invariant holds before the tick and is broken after it. *)
Theorem update_status_effects_burn_no_defeat :
  hp_defeat_invariant burned /\
  exists c',
    update_status_effects burned = Ok c' /\
    current_hp c' = 0 /\ is_defeated c' = false /\
    ~ hp_defeat_invariant c'.
Proof.
  split; [discriminate|].
  eexists; split; [vm_compute; reflexivity|].
  repeat split. intros H. specialize (H eq_refl). discriminate H.
Qed.

(** One tick of a combatant whose only effect is a paralysis. *)
Lemma paralysis_tick (c : CombatantState) (m : float) (d : Z) :
  status_effects c = [encode_effect "paralysis" d] ->
  stat_modifiers c !! "spd" = Some m ->
  update_status_effects c
  = Ok (set_status_effects
          (set_stat_modifiers c
             (<["spd" := (m * 0.5)%float]> (stat_modifiers c)))
          (if 0 <? d - 1 then [encode_effect "paralysis" (d - 1)] else [])).
Proof.
  intros Hs Hm. unfold update_status_effects. rewrite Hs.
  cbn [for_each]. unfold update_one_effect at 1.
  rewrite unpack_encode_effect by reflexivity. cbn [mbind res_bind].
  rewrite int_of_string_str_of_int. cbn [mbind res_bind].
  change (String.eqb "paralysis" "burn") with false.
  change (String.eqb "paralysis" "poison") with false.
  change (String.eqb "paralysis" "paralysis") with true. cbv iota.
  unfold getitem. rewrite Hm. cbn [mbind res_bind mret res_ret app].
  reflexivity.
Qed.

(** The stored speed multiplier after one loop step: halved by a paralysis
    entry, untouched by any other. *)
Lemma update_one_effect_spd (st st' : CombatantState * list string)
    (effect_str : string) (m : float) :
  update_one_effect st effect_str = Ok st' ->
  stat_modifiers (fst st) !! "spd" = Some m ->
  stat_modifiers (fst st') !! "spd"
  = Some (if bool_decide (head (split ":" effect_str) = Some "paralysis")
          then (m * 0.5)%float else m).
Proof.
  destruct st as [c active]. unfold update_one_effect, unpack_effect.
  destruct (split ":" effect_str) as [|n [|ds [|]]];
    cbn [mbind res_bind]; try discriminate.
  destruct (int_of_string ds) as [d|]; cbn [mbind res_bind]; [|discriminate].
  cbn [head fst].
  destruct (String.eqb_spec n "burn") as [->|Hb];
    [|destruct (String.eqb_spec n "poison") as [->|Hp];
      [|destruct (String.eqb_spec n "paralysis") as [->|Hq]]].
  - destruct (tick_damage c); cbn [mbind res_bind mret res_ret];
      [|discriminate].
    intros [= <-] Hm. exact Hm.
  - destruct (tick_damage c); cbn [mbind res_bind mret res_ret];
      [|discriminate].
    intros [= <-] Hm. exact Hm.
  - intros H Hm. unfold getitem in H. rewrite Hm in H.
    cbn [mbind res_bind mret res_ret] in H. injection H as <-.
    cbn [fst stat_modifiers set_stat_modifiers].
    rewrite lookup_insert_eq. rewrite bool_decide_eq_true_2; reflexivity.
  - cbn [mbind res_bind mret res_ret]. intros [= <-] Hm.
    rewrite bool_decide_eq_false_2 by congruence. exact Hm.
Qed.

Lemma for_each_update_spd (l : list string)
    (st st' : CombatantState * list string) (m : float) :
  for_each update_one_effect st l = Ok st' ->
  stat_modifiers (fst st) !! "spd" = Some m ->
  stat_modifiers (fst st') !! "spd"
  = Some (Nat.iter (count_effect "paralysis" l)
            (fun x => (x * 0.5)%float) m).
Proof.
  revert st m; induction l as [|e l IH]; intros st m E Hm;
    cbn [for_each] in E.
  - injection E as <-. exact Hm.
  - destruct (update_one_effect st e) as [st1|] eqn:E1;
      cbn [mbind res_bind] in E; [|discriminate].
    pose proof (update_one_effect_spd _ _ _ _ E1 Hm) as H1.
    rewrite (IH _ _ E H1). unfold count_effect. rewrite filter_cons.
    case_bool_decide; case_decide; try contradiction; [|reflexivity].
    cbn [length]. rewrite Nat.iter_succ_r. reflexivity.
Qed.

(** Whenever a tick returns, it has halved the stored speed multiplier
    once for every paralysis entry, and the result is what the combatant
    keeps. *)
Lemma update_status_effects_spd (c c' : CombatantState) (m : float) :
  update_status_effects c = Ok c' ->
  stat_modifiers c !! "spd" = Some m ->
  stat_modifiers c' !! "spd"
  = Some (Nat.iter (count_effect "paralysis" (status_effects c))
            (fun x => (x * 0.5)%float) m).
Proof.
  unfold update_status_effects.
  destruct (for_each _ _ _) as [[c1 active]|] eqn:E;
    cbn [mbind res_bind mret res_ret]; [|discriminate].
  intros [= <-] Hm. cbn [stat_modifiers set_status_effects].
  exact (for_each_update_spd _ _ _ _ E Hm).
Qed.

(** C6, as stated, fails: two ticks under paralysis take the stored speed
    multiplier from 1.0 to 0.25. *)
Lemma paralysis_two_ticks_counterexample :
  exists c1 c2,
    update_status_effects paralysed = Ok c1 /\
    update_status_effects c1 = Ok c2 /\
    stat_modifiers paralysed !! "spd" = Some 1.0%float /\
    stat_modifiers c1 !! "spd" = Some 0.5%float /\
    stat_modifiers c2 !! "spd" = Some 0.25%float /\
    stat_modifiers c2 !! "spd" <> stat_modifiers paralysed !! "spd".
Proof.
  do 2 eexists.
  split; [vm_compute; reflexivity|].
  split; [vm_compute; reflexivity|].
  repeat split; try reflexivity. vm_compute. discriminate.
Qed.

(** C6, amended: a tick with an active paralysis multiplies the speed
    multiplier stored on the combatant by 0.5, and the change stays in the
    store: a second tick with the paralysis still active multiplies it
    again, leaving 0.25 times the value before the first tick. *)
Theorem paralysis_tick_compounds (c : CombatantState) (m : float) (d : Z) :
  status_effects c = [encode_effect "paralysis" d] ->
  stat_modifiers c !! "spd" = Some m ->
  1 < d ->
  exists c1 c2,
    update_status_effects c = Ok c1 /\
    stat_modifiers c1 !! "spd" = Some (m * 0.5)%float /\
    update_status_effects c1 = Ok c2 /\
    stat_modifiers c2 !! "spd" = Some (m * 0.5 * 0.5)%float.
Proof.
  intros Hs Hm Hd.
  pose proof (paralysis_tick c m d Hs Hm) as T1.
  assert (Hpos : (0 <? d - 1) = true) by (apply Z.ltb_lt; lia).
  rewrite Hpos in T1.
  eexists; eexists. split; [exact T1|].
  split; [apply lookup_insert_eq|].
  split.
  - apply paralysis_tick; [reflexivity|apply lookup_insert_eq].
  - apply lookup_insert_eq.
Qed.

Lemma paralysis_tick_compounds_witness :
  status_effects paralysed = [encode_effect "paralysis" 3] /\
  stat_modifiers paralysed !! "spd" = Some 1.0%float /\
  1 < 3 /\
  exists c1 c2,
    update_status_effects paralysed = Ok c1 /\
    stat_modifiers c1 !! "spd" = Some (1.0 * 0.5)%float /\
    update_status_effects c1 = Ok c2 /\
    stat_modifiers c2 !! "spd" = Some (1.0 * 0.5 * 0.5)%float.
Proof.
  split; [reflexivity|]. split; [reflexivity|]. split; [lia|].
  apply (paralysis_tick_compounds paralysed 1.0%float 3);
    [reflexivity | reflexivity | lia].
Defined.

End StatusEffects.

(* ====================================================================== *)
(** * Stat stages                                                          *)
(* ====================================================================== *)

Section StatStages.

Import Scenario.

Lemma clamp_stage_range (stages : Z) : -6 <= clamp_stage stages <= 6.
Proof. unfold clamp_stage. lia. Qed.

(** The table has an entry for every clamped stage. *)
Lemma stage_multipliers_total (stages : Z) :
  exists m, stage_multipliers !! clamp_stage stages = Some m.
Proof.
  pose proof (clamp_stage_range stages) as H.
  assert (E : clamp_stage stages = -6 \/ clamp_stage stages = -5 \/
              clamp_stage stages = -4 \/ clamp_stage stages = -3 \/
              clamp_stage stages = -2 \/ clamp_stage stages = -1 \/
              clamp_stage stages = 0 \/ clamp_stage stages = 1 \/
              clamp_stage stages = 2 \/ clamp_stage stages = 3 \/
              clamp_stage stages = 4 \/ clamp_stage stages = 5 \/
              clamp_stage stages = 6) by lia.
  repeat (destruct E as [-> | E]); try rewrite E; eexists; reflexivity.
Qed.

(** C5, as stated, fails: two calls with +2 from the identity modifiers
    leave the stage-2 multiplier 2.0, not the stage-4 multiplier 3.0. *)
Lemma modify_stat_twice_counterexample :
  (c1 ← modify_stat B "atk" 2; c2 ← modify_stat c1 "atk" 2;
   mret (stat_modifiers c2 !! "atk")) = Ok (Some 2.0%float) /\
  stage_multipliers !! 4 = Some 3.0%float /\
  ~ ((c1 ← modify_stat B "atk" 2; c2 ← modify_stat c1 "atk" 2;
      mret (stat_modifiers c2 !! "atk")) = Ok (Some 3.0%float)).
Proof.
  split; [vm_compute; reflexivity|]. split; [reflexivity|].
  vm_compute. discriminate.
Qed.

(** C5, amended: [modify_stat] never raises; it clamps its argument to
    [-6, 6] and stores the table multiplier of that clamped stage (stage 0
    -> 1.0, 6 and above -> 4.0, -6 and below -> 0.25) under the stat name,
    replacing what was stored.  No stage is kept or accumulated: a second
    call gives what it would give on the original combatant, so two calls
    with +2 leave the multiplier 2.0. *)
Theorem modify_stat_sets_clamped_stage :
  (forall (c : CombatantState) (stat : string) (stages : Z),
      exists m,
        stage_multipliers !! clamp_stage stages = Some m /\
        -6 <= clamp_stage stages <= 6 /\
        modify_stat c stat stages
        = Ok (set_stat_modifiers c (<[stat := m]> (stat_modifiers c)))) /\
  (stage_multipliers !! 0 = Some 1.0%float /\
   (forall stages,
       stage_multipliers !! clamp_stage (Z.max 6 stages) = Some 4.0%float) /\
   (forall stages,
       stage_multipliers !! clamp_stage (Z.min (-6) stages)
       = Some 0.25%float)) /\
  (forall (c : CombatantState) (stat : string) (s1 s2 : Z),
      (c1 ← modify_stat c stat s1; modify_stat c1 stat s2)
      = modify_stat c stat s2) /\
  (c1 ← modify_stat B "atk" 2; c2 ← modify_stat c1 "atk" 2;
   mret (stat_modifiers c2 !! "atk")) = Ok (Some 2.0%float).
Proof.
  split; [|split; [|split]].
  - intros c stat stages.
    destruct (stage_multipliers_total stages) as [m Hm].
    exists m. split; [exact Hm|]. split; [apply clamp_stage_range|].
    unfold modify_stat, getitem. fold (clamp_stage stages). rewrite Hm.
    reflexivity.
  - split; [reflexivity|]. split; intros stages.
    + replace (clamp_stage (Z.max 6 stages)) with 6
        by (unfold clamp_stage; lia). reflexivity.
    + replace (clamp_stage (Z.min (-6) stages)) with (-6)
        by (unfold clamp_stage; lia). reflexivity.
  - intros c stat s1 s2.
    destruct (stage_multipliers_total s1) as [m1 H1].
    destruct (stage_multipliers_total s2) as [m2 H2].
    unfold modify_stat, getitem. fold (clamp_stage s1) (clamp_stage s2).
    rewrite H1, H2. cbn [mbind res_bind mret res_ret].
    unfold set_stat_modifiers; cbn [stat_modifiers echo_id echo current_hp
      status_effects position is_defeated].
    rewrite insert_insert_eq. reflexivity.
  - vm_compute. reflexivity.
Qed.

End StatStages.

(* ====================================================================== *)
(** * Damage calculation                                                   *)
(* ====================================================================== *)

Section Damage.

Import Scenario.

(** The result of the end-to-end scenario under [low_roll]. *)
Lemma calculate_damage_low_roll :
  exists g',
    calculate_damage attacker50 defender50 strike
      default_stat_modifiers default_stat_modifiers low_roll
    = Ok ({| base_damage := 16; type_effectiveness := 1.0;
             critical_hit := false; final_damage := 13;
             move_accuracy := 1.0; hit := true |}, g').
Proof. eexists. vm_compute. reflexivity. Qed.

(** C3, as stated, fails: in the end-to-end scenario with the lowest roll
    the product is 16.08 * 0.85 = 13.668; rounding gives 14, the code
    truncates and returns 13. *)
Lemma calculate_damage_round_counterexample :
  exists r g',
    calculate_damage attacker50 defender50 strike
      default_stat_modifiers default_stat_modifiers low_roll = Ok (r, g') /\
    hit r = true /\ critical_hit r = false /\
    base_damage_value attacker50 defender50 strike
      default_stat_modifiers default_stat_modifiers = Ok 16.08%float /\
    damage_roll low_roll = 0.85%float /\
    spec_final_damage 16.08 (effectiveness NEUTRAL NEUTRAL)
      (stab_of attacker50 strike) 1.0 0.85 = Ok 14 /\
    final_damage r = 13.
Proof.
  do 2 eexists. split; [vm_compute; reflexivity|].
  repeat split; vm_compute; reflexivity.
Qed.

(** C3, amended: whenever [calculate_damage] returns, a status move gives
    [final_damage = 0] with [hit = true]; any other move gives, when it
    hits, [final_damage = max(1, int(base * effectiveness * stab *
    critical_mult * roll))], the product truncated toward zero, hence
    [final_damage >= 1], and when it misses, [final_damage = 0]. *)
Theorem calculate_damage_final_damage
    (attacker defender : Echo) (move : Move)
    (mods_atk mods_def : gmap string float) (g g' : Random)
    (r : DamageResult) :
  calculate_damage attacker defender move mods_atk mods_def g = Ok (r, g') ->
  if String.eqb (default "physical" (Move.type move)) "status"
  then final_damage r = 0 /\ hit r = true
  else
    exists base n,
      base_damage_value attacker defender move mods_atk mods_def = Ok base /\
      code_final_damage base
        (effectiveness (element attacker) (element defender))
        (stab_of attacker move)
        (if critical_hit r then CRITICAL_HIT_MULTIPLIER else 1.0%float)
        (damage_roll g) = Ok n /\
      1 <= n /\
      final_damage r = if hit r then n else 0.
Proof.
  unfold calculate_damage.
  destruct (String.eqb (default "physical" (Move.type move)) "status").
  - destruct (float_of_int _); cbn; [|discriminate].
    intros [= <- _]. split; reflexivity.
  - destruct (base_damage_value _ _ _ _ _) as [base|]; cbn; [|discriminate].
    unfold code_final_damage, damage_roll.
    match goal with
    | |- int_of_float ?x ≫= _ = _ -> _ =>
        destruct (int_of_float x) as [n|] eqn:En
    end; cbn [mbind res_bind]; [|discriminate].
    destruct (float_of_int _) as [acc|]; cbn [mbind res_bind];
      [|discriminate].
    destruct (int_of_float base) as [bi|]; cbn [mbind res_bind mret res_ret];
      [|discriminate].
    intros [= <- _]. cbn [critical_hit final_damage hit].
    exists base, (Z.max 1 n). split; [reflexivity|].
    rewrite En. cbn [mbind res_bind mret res_ret].
    split; [reflexivity|]. split; [lia|reflexivity].
Qed.

Lemma calculate_damage_final_damage_witness :
  let r := {| base_damage := 16; type_effectiveness := 1.0;
              critical_hit := false; final_damage := 13;
              move_accuracy := 1.0; hit := true |} in
  let g' := {| draws := draws low_roll; cursor := 3 |} in
  calculate_damage attacker50 defender50 strike
    default_stat_modifiers default_stat_modifiers low_roll = Ok (r, g') /\
  exists base n,
    base_damage_value attacker50 defender50 strike
      default_stat_modifiers default_stat_modifiers = Ok base /\
    code_final_damage base 1.0 1.0 1.0 (damage_roll low_roll) = Ok n /\
    1 <= n /\ final_damage r = n.
Proof.
  intros r g'.
  assert (H : calculate_damage attacker50 defender50 strike
                default_stat_modifiers default_stat_modifiers low_roll
              = Ok (r, g')) by (vm_compute; reflexivity).
  split; [exact H|].
  exact (calculate_damage_final_damage attacker50 defender50 strike
           default_stat_modifiers default_stat_modifiers low_roll g' r H).
Defined.

(** A status move costs the defender nothing and always connects. *)
Lemma calculate_damage_status (attacker defender : Echo) (move : Move)
    (mods_atk mods_def : gmap string float) (g : Random) (acc : float) :
  Move.type move = Some "status" ->
  float_of_int (default 100 (Move.accuracy move)) = Ok acc ->
  calculate_damage attacker defender move mods_atk mods_def g
  = Ok ({| base_damage := 0; type_effectiveness := 1.0;
           critical_hit := false; final_damage := 0;
           move_accuracy := (acc / 100.0)%float; hit := true |}, g).
Proof.
  intros Ht Ha. unfold calculate_damage. rewrite Ht. cbn [default].
  change (String.eqb "status" "status") with true. cbv iota.
  rewrite Ha. reflexivity.
Qed.

(** Accuracies in the documented range 0..100 convert without error. *)
Lemma float_of_int_percent (n : Z) :
  0 <= n <= 100 -> exists x, float_of_int n = Ok x.
Proof.
  intros H. rewrite <- (Z2Nat.id n) by lia.
  assert (Hk : (Z.to_nat n <= 100)%nat) by lia.
  generalize dependent (Z.to_nat n). clear. intros k Hk.
  do 101 (destruct k as [|k]; [vm_compute; eauto|]). lia.
Qed.

(** Hence a status move with an accuracy in range always returns, with no
    damage and a connecting hit. *)
Lemma calculate_damage_status_total (attacker defender : Echo) (move : Move)
    (mods_atk mods_def : gmap string float) (g : Random) :
  Move.type move = Some "status" ->
  0 <= default 100 (Move.accuracy move) <= 100 ->
  exists r,
    calculate_damage attacker defender move mods_atk mods_def g = Ok (r, g) /\
    final_damage r = 0 /\ hit r = true.
Proof.
  intros Ht Ha. destruct (float_of_int_percent _ Ha) as [acc Hacc].
  eexists. split; [exact (calculate_damage_status _ _ _ _ _ _ _ Ht Hacc)|].
  split; reflexivity.
Qed.

(** [execute_move] keeps the invariant of the defender: it sets the defeat
    flag whenever the damage brings HP to 0. *)
Lemma execute_move_hp_defeat_invariant
    (attacker defender defender' : CombatantState) (move : Move)
    (g g' : Random) (out : Z * DamageResult * string) :
  execute_move attacker defender move g = Ok (out, defender', g') ->
  hp_defeat_invariant defender -> hp_defeat_invariant defender'.
Proof.
  unfold execute_move, hp_defeat_invariant.
  destruct (calculate_damage _ _ _ _ _ _) as [[r g1]|]; cbn; [|discriminate].
  destruct (hit r); cbn.
  - set (h := Z.max 0 (current_hp defender - final_damage r)).
    destruct (h =? 0) eqn:Eh.
    + destruct (Move.effect move) as [[|c e]|]; cbn.
      * intros [= _ <- _]; reflexivity.
      * unfold apply_status_effect.
        destruct (contains _ _); intros [= _ <- _]; reflexivity.
      * intros [= _ <- _]; reflexivity.
    + apply Z.eqb_neq in Eh.
      destruct (Move.effect move) as [[|c e]|]; cbn.
      * intros [= _ <- _]; cbn; intros _ H0; contradiction.
      * unfold apply_status_effect.
        destruct (contains _ _); intros [= _ <- _]; cbn;
          intros _ H0; contradiction.
      * intros [= _ <- _]; cbn; intros _ H0; contradiction.
  - intros [= _ <- _]. auto.
Qed.

(** In the three-combatant battle a tackle of [C] brings [A] down. *)
Lemma execute_move_defeats_A :
  exists out g',
    execute_move C A tackle low_roll = Ok (out, A_defeated, g').
Proof. do 2 eexists. vm_compute. reflexivity. Qed.

End Damage.

(* ====================================================================== *)
(** * AI move selection                                                    *)
(* ====================================================================== *)

Section AI.

Import Scenario.

Lemma filter_alive_all_defeated (defenders : list CombatantState) :
  Forall (fun d => is_defeated d = true) defenders ->
  filter (fun d => is_defeated d = false) defenders = [].
Proof.
  induction 1 as [|d l Hd _ IH]; [reflexivity|].
  rewrite filter_cons, IH. case_decide; [congruence|reflexivity].
Qed.

(** C7 fails on the code: when every candidate target is defeated the
    failsafe branch indexes the empty filtered list, [alive_targets[0]],
    and the call raises [IndexError] whatever the attacker's moves are. *)
Theorem ai_choose_move_all_defeated_raises
    (attacker : CombatantState) (defenders : list CombatantState) :
  Forall (fun d => is_defeated d = true) defenders ->
  ai_choose_move attacker defenders = Raise IndexError.
Proof.
  intros H. unfold ai_choose_move.
  rewrite (filter_alive_all_defeated _ H).
  destruct (moves (echo attacker)); reflexivity.
Qed.

Lemma ai_choose_move_all_defeated_raises_witness :
  moves (echo C) = [tackle] /\
  Forall (fun d => is_defeated d = true) [A_defeated] /\
  ai_choose_move C [A_defeated] = Raise IndexError.
Proof.
  split; [reflexivity|].
  assert (H : Forall (fun d => is_defeated d = true) [A_defeated])
    by (repeat constructor).
  split; [exact H|].
  exact (ai_choose_move_all_defeated_raises C [A_defeated] H).
Defined.

(** With a live target the selection returns a move and a live target. *)
Lemma ai_choose_move_live_target :
  ai_choose_move C [A_defeated; B] = Ok (tackle, B).
Proof. vm_compute. reflexivity. Qed.

End AI.

(* ====================================================================== *)
(** * Battle rewards                                                       *)
(* ====================================================================== *)

Section Rewards.

Import Scenario.

(** The reward of one loser, as the loop body computes it. *)
Lemma reward_for_formula (winner loser : CombatantState)
    (total_exp total_currency : Z) (out : Z * Z) :
  reward_for winner (total_exp, total_currency) loser = Ok out ->
  exists diff_f exp_f cur_f exp_gained currency_gained,
    float_of_int (level (echo loser) - level (echo winner)) = Ok diff_f /\
    float_of_int (100 + level (echo loser) * 2) = Ok exp_f /\
    float_of_int (50 + level (echo loser)) = Ok cur_f /\
    let exp_mult := fmax 0.5 (1.0 + diff_f * 0.1)%float in
    int_of_float (exp_f * exp_mult)%float = Ok exp_gained /\
    int_of_float (cur_f * exp_mult)%float = Ok currency_gained /\
    out = (total_exp + exp_gained, total_currency + currency_gained).
Proof.
  unfold reward_for.
  destruct (float_of_int (level (echo loser) - level (echo winner)))
    as [diff_f|]; cbn [mbind res_bind]; [|discriminate].
  destruct (float_of_int (100 + level (echo loser) * 2)) as [exp_f|];
    cbn [mbind res_bind]; [|discriminate].
  destruct (int_of_float (exp_f * _)) as [eg|] eqn:E1;
    cbn [mbind res_bind]; [|discriminate].
  destruct (float_of_int (50 + level (echo loser))) as [cur_f|];
    cbn [mbind res_bind]; [|discriminate].
  destruct (int_of_float (cur_f * _)) as [cg|] eqn:E2;
    cbn [mbind res_bind mret res_ret]; [|discriminate].
  intros [= <-]. exists diff_f, exp_f, cur_f, eg, cg.
  repeat split; assumption.
Qed.

(** C9: a winner of level 20 and a single loser of level 20 give
    experience 140, currency 70 and bonus multiplier 1.0: the level
    difference is 0, so [exp_mult = max(0.5, 1.0 + 0 * 0.1) = 1.0],
    [exp = (100 + 20 * 2) * 1.0] and [currency = (50 + 20) * 1.0]. *)
Theorem calculate_battle_rewards_level_20 (winner loser : CombatantState) :
  level (echo winner) = 20 ->
  level (echo loser) = 20 ->
  calculate_battle_rewards winner [loser]
  = Ok {| experience := 140; currency := 70;
          bonus_multiplier := 1.0%float |} /\
  reward_for winner (0, 0) loser = Ok (140, 70) /\
  fmax 0.5 (1.0 + 0.0 * 0.1)%float = 1.0%float.
Proof.
  intros Hw Hl.
  assert (R : reward_for winner (0, 0) loser = Ok (140, 70)).
  { unfold reward_for. rewrite Hw, Hl. vm_compute. reflexivity. }
  split; [|split; [exact R|reflexivity]].
  unfold calculate_battle_rewards; cbn [for_each]. rewrite R.
  reflexivity.
Qed.

Lemma calculate_battle_rewards_level_20_witness :
  let winner := make_combatant (make_echo "W" 20 100 50 50) in
  let loser := make_combatant (make_echo "L" 20 100 50 50) in
  level (echo winner) = 20 /\ level (echo loser) = 20 /\
  calculate_battle_rewards winner [loser]
  = Ok {| experience := 140; currency := 70;
          bonus_multiplier := 1.0%float |}.
Proof.
  intros winner loser.
  split; [reflexivity|]. split; [reflexivity|].
  exact (proj1 (calculate_battle_rewards_level_20 winner loser
                  eq_refl eq_refl)).
Defined.

(** C10: with no losers the totals are 0 and the bonus multiplier is
    [1.0 + (0 - 1) * 0.1 = 0.9], below 1.0, whoever the winner is. *)
Theorem calculate_battle_rewards_no_losers (winner : CombatantState) :
  calculate_battle_rewards winner []
  = Ok {| experience := 0; currency := 0;
          bonus_multiplier := 0.9%float |} /\
  (1.0 + (-1.0) * 0.1)%float = 0.9%float /\
  PrimFloat.ltb 0.9 1.0 = true.
Proof. repeat split; reflexivity. Qed.

End Rewards.

(* ====================================================================== *)
(** * The order of floats                                                  *)
(* ====================================================================== *)

Section FloatOrder.








End FloatOrder.

(* ====================================================================== *)
(** * Turn order                                                           *)
(* ====================================================================== *)

Section Sorting.

Context {A : Type} (lt : A -> A -> bool).

Lemma insort_Permutation (x : A) (l : list A) : insort lt x l ≡ₚ x :: l.
Proof.
  induction l as [|y l IH]; cbn [insort]; [reflexivity|].
  destruct (lt x y); [reflexivity|].
  rewrite IH. apply Permutation_swap.
Qed.

Lemma foldl_insort_Permutation (l acc : list A) :
  foldl (fun acc x => insort lt x acc) acc l ≡ₚ l ++ acc.
Proof.
  revert acc; induction l as [|x l IH]; intros acc; cbn [foldl];
    [reflexivity|].
  rewrite IH, insort_Permutation. cbn.
  symmetry. apply Permutation_middle.
Qed.

Lemma stable_sort_Permutation (l : list A) : stable_sort lt l ≡ₚ l.
Proof.
  unfold stable_sort. rewrite foldl_insort_Permutation, app_nil_r.
  reflexivity.
Qed.

Hypothesis lt_trans :
  forall x y z, lt x y = true -> lt y z = true -> lt x z = true.
Hypothesis lt_asym : forall x y, lt x y = true -> lt y x = false.




End Sorting.

Section TurnOrder.

Import Scenario.

Lemma get_speed_priority_inv (c : CombatantState) (g g' : Random) (k : float) :
  get_speed_priority c g = Ok (k, g') ->
  is_Some (stat_modifiers c !! "spd") /\
  draws g' = draws g /\ cursor g' = S (cursor g).
Proof.
  unfold get_speed_priority, getitem.
  destruct (stat_modifiers c !! "spd") as [m|]; cbn [mbind res_bind];
    [|discriminate].
  destruct (float_of_int _) as [f|]; cbn [mbind res_bind]; [|discriminate].
  unfold random_uniform, random_random. cbn [mret res_ret].
  intros [= _ <-]. cbn. eauto.
Qed.

Lemma speed_keys_inv (cs : list CombatantState) (g g' : Random)
    (keyed : list (float * CombatantState)) :
  speed_keys cs g = Ok (keyed, g') ->
  map snd keyed = cs /\
  Forall (fun c => is_Some (stat_modifiers c !! "spd")) cs /\
  draws g' = draws g /\ cursor g' = (cursor g + length cs)%nat.
Proof.
  revert g keyed; induction cs as [|c cs IH]; intros g keyed;
    cbn [speed_keys].
  - intros [= <- <-]. split; [reflexivity|]. split; [constructor|].
    split; [reflexivity|]. cbn [length]. lia.
  - destruct (get_speed_priority c g) as [[k g1]|] eqn:E1;
      cbn [mbind res_bind]; [|discriminate].
    destruct (speed_keys cs g1) as [[keyed1 g2]|] eqn:E2;
      cbn [mbind res_bind mret res_ret]; [|discriminate].
    intros [= <- <-].
    destruct (get_speed_priority_inv _ _ _ _ E1) as (Hc & Hd1 & Hc1).
    destruct (IH _ _ E2) as (Hm & Hall & Hd2 & Hc2).
    cbn [map snd length]. rewrite Hm, Hd2, Hd1, Hc2, Hc1.
    split; [reflexivity|]. split; [constructor; assumption|].
    split; [reflexivity|]. lia.
Qed.

Lemma sorted_reverse_Permutation {A} (keyed : list (float * A)) :
  sorted_reverse keyed ≡ₚ keyed.
Proof.
  unfold sorted_reverse.
  rewrite <- Permutation_rev, stable_sort_Permutation, <- Permutation_rev.
  reflexivity.
Qed.

(** X1: a turn order that is returned is a rearrangement of the
    combatants it was given, nobody dropped and nobody twice, and
    computing it takes exactly one draw per combatant from the
    generator. *)
Theorem calculate_turn_order_permutation
    (combatants out : list CombatantState) (g g' : Random) :
  calculate_turn_order combatants g = Ok (out, g') ->
  out ≡ₚ combatants /\ length out = length combatants /\
  draws g' = draws g /\ cursor g' = (cursor g + length combatants)%nat.
Proof.
  unfold calculate_turn_order.
  destruct (speed_keys combatants g) as [[keyed g1]|] eqn:E;
    cbn [mbind res_bind mret res_ret]; [|discriminate].
  intros [= <- <-].
  destruct (speed_keys_inv _ _ _ _ E) as (Hm & _ & Hd & Hc).
  assert (P : map snd (sorted_reverse keyed) ≡ₚ combatants).
  { rewrite sorted_reverse_Permutation. rewrite Hm. reflexivity. }
  split; [exact P|]. split; [exact (Permutation_length P)|].
  split; assumption.
Qed.

Lemma calculate_turn_order_permutation_witness :
  calculate_turn_order [A; B; C] low_roll
  = Ok ([A; B; C], {| draws := draws low_roll; cursor := 3 |}) /\
  [A; B; C] ≡ₚ [A; B; C] /\ length [A; B; C] = length [A; B; C] /\
  draws low_roll = draws low_roll /\ 3%nat = (0 + length [A; B; C])%nat.
Proof.
  assert (H : calculate_turn_order [A; B; C] low_roll
              = Ok ([A; B; C], {| draws := draws low_roll; cursor := 3 |}))
    by (vm_compute; reflexivity).
  split; [exact H|].
  exact (calculate_turn_order_permutation _ _ _ _ H).
Defined.



(** X3: with two combatants the second goes first only when its jittered
    speed is strictly higher; on a tie the order of the input list is
    kept. *)
Theorem calculate_turn_order_pair (a b : CombatantState)
    (out : list CombatantState) (g g' : Random) :
  calculate_turn_order [a; b] g = Ok (out, g') ->
  exists ka kb g1,
    get_speed_priority a g = Ok (ka, g1) /\
    get_speed_priority b g1 = Ok (kb, g') /\
    out = if PrimFloat.ltb ka kb then [b; a] else [a; b].
Proof.
  unfold calculate_turn_order. cbn [speed_keys].
  destruct (get_speed_priority a g) as [[ka g1]|];
    cbn [mbind res_bind]; [|discriminate].
  destruct (get_speed_priority b g1) as [[kb g2]|] eqn:Eb;
    cbn [mbind res_bind mret res_ret]; [|discriminate].
  intros [= <- <-]. exists ka, kb, g1.
  split; [reflexivity|]. split; [exact Eb|].
  unfold sorted_reverse, stable_sort. cbn [rev app foldl insort].
  unfold key_lt at 1. cbn [fst].
  destruct (PrimFloat.ltb ka kb); reflexivity.
Qed.

Lemma calculate_turn_order_pair_witness :
  let fast := set_stat_modifiers B (<["spd" := 2.0%float]> (stat_modifiers B)) in
  let g' := {| draws := draws low_roll; cursor := 2 |} in
  calculate_turn_order [A; fast] low_roll = Ok ([fast; A], g') /\
  exists ka kb g1,
    get_speed_priority A low_roll = Ok (ka, g1) /\
    get_speed_priority fast g1 = Ok (kb, g') /\
    [fast; A] = if PrimFloat.ltb ka kb then [fast; A] else [A; fast].
Proof.
  intros fast g'.
  assert (H : calculate_turn_order [A; fast] low_roll = Ok ([fast; A], g'))
    by (vm_compute; reflexivity).
  split; [exact H|].
  exact (calculate_turn_order_pair _ _ _ _ _ H).
Defined.

Lemma speed_keys_missing_spd (front rest : list CombatantState)
    (c : CombatantState) (g : Random) :
  stat_modifiers c !! "spd" = None ->
  exists e, speed_keys (front ++ c :: rest) g = Raise e.
Proof.
  intros Hc. revert g; induction front as [|f front IH]; intros g;
    cbn [app speed_keys].
  - unfold get_speed_priority, getitem. rewrite Hc. eexists. reflexivity.
  - destruct (get_speed_priority f g) as [[k g1]|e]; cbn [mbind res_bind];
      [|eexists; reflexivity].
    destruct (IH g1) as [e ->]. eexists. reflexivity.
Qed.

(** X4: a combatant whose modifier map has no ['spd'] entry makes the
    turn order fail: the call raises [KeyError] when that combatant comes
    first, and never returns wherever it stands in the list. *)
Theorem calculate_turn_order_missing_spd (c : CombatantState)
    (front rest : list CombatantState) (g : Random) :
  stat_modifiers c !! "spd" = None ->
  calculate_turn_order (c :: rest) g = Raise KeyError /\
  exists e, calculate_turn_order (front ++ c :: rest) g = Raise e.
Proof.
  intros Hc. split.
  - unfold calculate_turn_order. cbn [speed_keys].
    unfold get_speed_priority, getitem. rewrite Hc. reflexivity.
  - destruct (speed_keys_missing_spd front rest c g Hc) as [e He].
    exists e. unfold calculate_turn_order. rewrite He. reflexivity.
Qed.

Lemma calculate_turn_order_missing_spd_witness :
  let bare := set_stat_modifiers B ∅ in
  stat_modifiers bare !! "spd" = None /\
  calculate_turn_order [bare; C] low_roll = Raise KeyError /\
  exists e, calculate_turn_order ([A] ++ bare :: [C]) low_roll = Raise e.
Proof.
  intros bare. split; [reflexivity|].
  exact (calculate_turn_order_missing_spd bare [A] [C] low_roll eq_refl).
Defined.

End TurnOrder.

(* ====================================================================== *)
(** * Status effect lifecycle                                              *)
(* ====================================================================== *)

Section Lifecycle.

Import Scenario.

Lemma range_from_elem (lo : Z) (n : nat) (z : Z) :
  lo <= z < lo + Z.of_nat n -> z ∈ range_from lo n.
Proof.
  revert lo; induction n as [|n IH]; intros lo H; cbn [range_from].
  - lia.
  - destruct (decide (z = lo)) as [->|Hne]; [left|right; apply IH; lia].
Qed.

Lemma forallb_range (f : Z -> bool) (lo : Z) (n : nat) (z : Z) :
  forallb f (range_from lo n) = true ->
  lo <= z < lo + Z.of_nat n -> f z = true.
Proof.
  intros Hall Hz. rewrite forallb_forall in Hall.
  apply Hall, list_elem_of_In, range_from_elem, Hz.
Qed.

(** One loop step on an entry the engine wrote: what happens to the list
    of kept effects. *)
Lemma update_one_effect_encoded (c c' : CombatantState)
    (active active' : list string) (n : string) (d : Z) :
  no_colon n = true ->
  update_one_effect (c, active) (encode_effect n d) = Ok (c', active') ->
  active' = if 0 <? d - 1 then active ++ [encode_effect n (d - 1)]
            else active.
Proof.
  intros Hn. unfold update_one_effect.
  rewrite (unpack_encode_effect _ _ Hn). cbn [mbind res_bind].
  rewrite int_of_string_str_of_int. cbn [mbind res_bind].
  match goal with
  | |- ?m ≫= _ = _ -> _ => destruct m as [c1|]
  end; cbn [mbind res_bind mret res_ret]; [|discriminate].
  intros [= _ <-]. reflexivity.
Qed.

Lemma encode_all_tick_cons (n : string) (d : Z) (l : list (string * Z)) :
  encode_all (tick_durations ((n, d) :: l))
  = (if 0 <? d - 1 then [encode_effect n (d - 1)] else [])
    ++ encode_all (tick_durations l).
Proof.
  unfold tick_durations, encode_all. cbn [map fst snd].
  rewrite filter_cons. cbn [snd].
  destruct (Z.ltb_spec 0 (d - 1)); case_decide; try lia; reflexivity.
Qed.

Lemma for_each_update_encoded (l : list (string * Z))
    (c c' : CombatantState) (active active' : list string) :
  Forall (fun p => no_colon (fst p) = true) l ->
  for_each update_one_effect (c, active) (encode_all l) = Ok (c', active') ->
  active' = active ++ encode_all (tick_durations l).
Proof.
  intros Hl. revert c active.
  induction Hl as [|[n d] l Hn Hl IH]; intros c active;
    cbn [encode_all map for_each fst snd].
  - intros [= _ <-]. cbn. rewrite app_nil_r. reflexivity.
  - destruct (update_one_effect (c, active) (encode_effect n d))
      as [[c1 a1]|] eqn:E1; cbn [mbind res_bind]; [|discriminate].
    intros E. apply IH in E. rewrite E, encode_all_tick_cons.
    rewrite (update_one_effect_encoded _ _ _ _ _ _ Hn E1).
    destruct (0 <? d - 1); cbn [app]; [rewrite <- app_assoc|]; reflexivity.
Qed.

Lemma update_status_effects_encoded (c c' : CombatantState)
    (l : list (string * Z)) :
  Forall (fun p => no_colon (fst p) = true) l ->
  status_effects c = encode_all l ->
  update_status_effects c = Ok c' ->
  status_effects c' = encode_all (tick_durations l).
Proof.
  intros Hl Hs. unfold update_status_effects. rewrite Hs.
  destruct (for_each _ _ _) as [[c1 active]|] eqn:E;
    cbn [mbind res_bind mret res_ret]; [|discriminate].
  intros [= <-]. cbn [status_effects set_status_effects].
  exact (for_each_update_encoded _ _ _ _ _ Hl E).
Qed.

(** X5: on an active list the engine wrote, a tick that returns lowers
    every remaining-turns counter by one, drops exactly the entries whose
    counter reaches zero (or was already below one), and keeps the others
    in their order. *)
Theorem update_status_effects_durations (c c' : CombatantState)
    (l : list (string * Z)) :
  Forall (fun p => no_colon (fst p) = true) l ->
  status_effects c = encode_all l ->
  update_status_effects c = Ok c' ->
  status_effects c' = encode_all (tick_durations l).
Proof. apply update_status_effects_encoded. Qed.

Lemma update_status_effects_durations_witness :
  let l := [("burn", 1); ("sleep", 3); ("paralysis", 2)] in
  let c := set_status_effects B (encode_all l) in
  Forall (fun p : string * Z => no_colon (fst p) = true) l /\
  status_effects c = encode_all l /\
  exists c',
    update_status_effects c = Ok c' /\
    status_effects c' = encode_all (tick_durations l).
Proof.
  intros l c.
  assert (Hl : Forall (fun p : string * Z => no_colon (fst p) = true) l)
    by (repeat constructor).
  split; [exact Hl|]. split; [reflexivity|].
  eexists. split; [vm_compute; reflexivity|].
  apply (update_status_effects_durations c _ l Hl eq_refl).
  vm_compute. reflexivity.
Defined.

Lemma update_one_effect_inert (c : CombatantState) (active : list string)
    (n : string) (d : Z) :
  no_colon n = true -> has_tick_consequence n = false ->
  update_one_effect (c, active) (encode_effect n d)
  = Ok (c, if 0 <? d - 1 then active ++ [encode_effect n (d - 1)]
           else active).
Proof.
  intros Hn Hc. unfold has_tick_consequence in Hc.
  apply orb_false_elim in Hc as [Hc Hpar].
  apply orb_false_elim in Hc as [Hburn Hpoison].
  unfold update_one_effect.
  rewrite (unpack_encode_effect _ _ Hn). cbn [mbind res_bind].
  rewrite int_of_string_str_of_int. cbn [mbind res_bind].
  rewrite Hburn, Hpoison, Hpar. reflexivity.
Qed.

(** X6: effects other than burn, poison and paralysis (sleep, freeze and
    any other name) have no consequence at a tick: the call always
    returns and only the counters move; HP, modifiers and every other
    field are as before. *)
Theorem update_status_effects_inert (c : CombatantState)
    (l : list (string * Z)) :
  Forall (fun p => no_colon (fst p) = true /\
                   has_tick_consequence (fst p) = false) l ->
  status_effects c = encode_all l ->
  update_status_effects c
  = Ok (set_status_effects c (encode_all (tick_durations l))).
Proof.
  intros Hl Hs. unfold update_status_effects. rewrite Hs.
  assert (G : forall active,
             for_each update_one_effect (c, active) (encode_all l)
             = Ok (c, active ++ encode_all (tick_durations l))).
  { clear Hs. induction Hl as [|[n d] l [Hn Hc] Hl IH]; intros active;
      cbn [encode_all map for_each fst snd].
    - cbn. rewrite app_nil_r. reflexivity.
    - cbn [fst] in Hn, Hc.
      rewrite (update_one_effect_inert _ _ _ _ Hn Hc). cbn [mbind res_bind].
      fold (encode_all l). rewrite IH, encode_all_tick_cons.
      destruct (0 <? d - 1); cbn [app]; [rewrite <- app_assoc|];
        reflexivity. }
  rewrite G. reflexivity.
Qed.

Lemma update_status_effects_inert_witness :
  let l := [("sleep", 2); ("freeze", 1)] in
  let c := set_status_effects B (encode_all l) in
  Forall (fun p : string * Z => no_colon (fst p) = true /\
                   has_tick_consequence (fst p) = false) l /\
  status_effects c = encode_all l /\
  update_status_effects c = Ok (set_status_effects c ["sleep:1"]).
Proof.
  intros l c.
  assert (Hl : Forall (fun p : string * Z => no_colon (fst p) = true /\
                         has_tick_consequence (fst p) = false) l)
    by (repeat constructor).
  split; [exact Hl|]. split; [reflexivity|].
  exact (update_status_effects_inert c l Hl eq_refl).
Defined.

Lemma split_length (sep : ascii) (s : string) :
  length (split sep s) = S (count_char sep s).
Proof.
  induction s as [|ch s IH]; cbn [split count_char]; [reflexivity|].
  destruct (Ascii.eqb ch sep); cbn [length Nat.add]; [rewrite IH; reflexivity|].
  destruct (split sep s) as [|h t]; cbn [length] in *; [discriminate IH|].
  exact IH.
Qed.

Lemma count_char_append (sep : ascii) (s t : string) :
  count_char sep (s +:+ t) = (count_char sep s + count_char sep t)%nat.
Proof.
  induction s as [|ch s IH]; [reflexivity|].
  rewrite append_cons. cbn [count_char]. rewrite IH. lia.
Qed.

Lemma count_char_colon (s : string) :
  no_colon s = false -> (1 <= count_char ":" s)%nat.
Proof.
  induction s as [|ch s IH]; cbn [no_colon count_char]; [discriminate|].
  destruct (Ascii.eqb ch ":"); cbn; [lia|]. exact IH.
Qed.

(** X7: [apply_status_effect] accepts an effect name that contains a
    colon, and the entry it stores then makes the next tick of that
    combatant raise [ValueError] at the unpacking of the entry. *)
Theorem update_status_effects_colon_name (c : CombatantState)
    (effect : string) (duration : Z) :
  no_colon effect = false ->
  let applied :=
    apply_status_effect (set_status_effects c []) effect duration in
  fst applied = true /\
  status_effects (snd applied) = [encode_effect effect duration] /\
  update_status_effects (snd applied) = Raise ValueError.
Proof.
  intros Hc applied. subst applied.
  assert (E : apply_status_effect (set_status_effects c []) effect duration
              = (true, set_status_effects c [encode_effect effect duration]))
    by reflexivity.
  rewrite E. cbn [fst snd status_effects set_status_effects].
  split; [reflexivity|]. split; [reflexivity|].
  unfold update_status_effects.
  cbn [status_effects set_status_effects for_each].
  unfold update_one_effect, unpack_effect.
  pose proof (split_length ":" (encode_effect effect duration)) as L.
  unfold encode_effect in L at 2. rewrite !count_char_append in L.
  pose proof (count_char_colon _ Hc) as H1. cbn [count_char] in L.
  change (Ascii.eqb ":" ":") with true in L.
  destruct (split ":" (encode_effect effect duration)) as [|a [|b [|x t]]];
    cbn [length] in L; try reflexivity; lia.
Qed.

Lemma update_status_effects_colon_name_witness :
  no_colon "slow:2" = false /\
  fst (apply_status_effect (set_status_effects B []) "slow:2" 3) = true /\
  status_effects
    (snd (apply_status_effect (set_status_effects B []) "slow:2" 3))
  = [encode_effect "slow:2" 3] /\
  update_status_effects
    (snd (apply_status_effect (set_status_effects B []) "slow:2" 3))
  = Raise ValueError.
Proof.
  split; [reflexivity|].
  exact (update_status_effects_colon_name B "slow:2" 3 eq_refl).
Defined.

(** What a loop step of the tick leaves alone. *)
Lemma update_one_effect_frame (st st' : CombatantState * list string)
    (effect_str : string) :
  update_one_effect st effect_str = Ok st' ->
  echo (fst st') = echo (fst st) /\
  echo_id (fst st') = echo_id (fst st) /\
  position (fst st') = position (fst st) /\
  dom (stat_modifiers (fst st')) = dom (stat_modifiers (fst st)) /\
  (0 <= current_hp (fst st) -> 0 <= current_hp (fst st')).
Proof.
  destruct st as [c active]. unfold update_one_effect.
  destruct (unpack_effect effect_str) as [[n ds]|];
    cbn [mbind res_bind]; [|discriminate].
  destruct (int_of_string ds) as [d|]; cbn [mbind res_bind]; [|discriminate].
  destruct (String.eqb n "burn");
    [|destruct (String.eqb n "poison");
      [|destruct (String.eqb n "paralysis")]].
  - destruct (tick_damage c); cbn [mbind res_bind mret res_ret];
      [|discriminate].
    intros [= <-]. cbn. repeat split; lia.
  - destruct (tick_damage c); cbn [mbind res_bind mret res_ret];
      [|discriminate].
    intros [= <-]. cbn. repeat split; lia.
  - unfold getitem.
    destruct (stat_modifiers c !! "spd") as [m|] eqn:Hm;
      cbn [mbind res_bind mret res_ret]; [|discriminate].
    intros [= <-]. cbn. repeat split; try tauto.
    apply dom_insert_lookup_L. eauto.
  - cbn [mbind res_bind mret res_ret]. intros [= <-]. cbn.
    repeat split; tauto.
Qed.

Lemma for_each_update_frame (l : list string)
    (st st' : CombatantState * list string) :
  for_each update_one_effect st l = Ok st' ->
  echo (fst st') = echo (fst st) /\
  echo_id (fst st') = echo_id (fst st) /\
  position (fst st') = position (fst st) /\
  dom (stat_modifiers (fst st')) = dom (stat_modifiers (fst st)) /\
  (0 <= current_hp (fst st) -> 0 <= current_hp (fst st')).
Proof.
  revert st; induction l as [|e l IH]; intros st; cbn [for_each].
  - intros [= <-]. tauto.
  - destruct (update_one_effect st e) as [st1|] eqn:E1;
      cbn [mbind res_bind]; [|discriminate].
    intros E. destruct (update_one_effect_frame _ _ _ E1) as (F1&F2&F3&F4&F5).
    destruct (IH _ E) as (G1&G2&G3&G4&G5).
    rewrite G1, G2, G3, G4, F1, F2, F3, F4. tauto.
Qed.

(** X8: a tick that returns leaves the combatant's Echo, identifier,
    position and set of modifier keys as they were, and never takes HP
    that was non-negative below zero. *)
Theorem update_status_effects_frame (c c' : CombatantState) :
  update_status_effects c = Ok c' ->
  echo c' = echo c /\ echo_id c' = echo_id c /\
  position c' = position c /\
  dom (stat_modifiers c') = dom (stat_modifiers c) /\
  (0 <= current_hp c -> 0 <= current_hp c').
Proof.
  unfold update_status_effects.
  destruct (for_each _ _ _) as [[c1 active]|] eqn:E;
    cbn [mbind res_bind mret res_ret]; [|discriminate].
  intros [= <-]. cbn [echo echo_id position stat_modifiers current_hp
                      set_status_effects].
  exact (for_each_update_frame _ _ _ E).
Qed.

Lemma update_status_effects_frame_witness :
  exists c',
    update_status_effects burned = Ok c' /\
    echo c' = echo burned /\ echo_id c' = echo_id burned /\
    position c' = position burned /\
    dom (stat_modifiers c') = dom (stat_modifiers burned) /\
    (0 <= current_hp burned -> 0 <= current_hp c').
Proof.
  eexists. split; [vm_compute; reflexivity|].
  apply update_status_effects_frame. vm_compute. reflexivity.
Defined.

Lemma tick_damage_eighth (c : CombatantState) :
  0 <= hp (base_stats (echo c)) <= 10000 ->
  tick_damage c = Ok (hp (base_stats (echo c)) / 8).
Proof.
  intros H.
  assert (Hall : forallb tick_damage_is_eighth
                   (range_from 0 (Z.to_nat 10001)) = true)
    by (vm_compute; reflexivity).
  pose proof (forallb_range _ _ _ (hp (base_stats (echo c))) Hall) as Hh.
  unfold tick_damage_is_eighth in Hh. unfold tick_damage.
  destruct (_ ≫= _) as [d|]; [|discriminate Hh; lia].
  f_equal. apply Z.eqb_eq, Hh. lia.
Qed.

(** X9: for a maximum HP between 0 and 10000, one tick of a burn or of a
    poison costs exactly [max_hp // 8] HP, floored at 0 HP; below 8
    maximum HP it costs nothing.  The counter of the effect goes down by
    one and the entry leaves the list when it reaches zero. *)
Theorem update_status_effects_burn_poison (c : CombatantState)
    (n : string) (d : Z) :
  n = "burn" \/ n = "poison" ->
  0 <= hp (base_stats (echo c)) <= 10000 ->
  status_effects c = [encode_effect n d] ->
  update_status_effects c
  = Ok (set_status_effects
          (set_current_hp c
             (Z.max 0 (current_hp c - hp (base_stats (echo c)) / 8)))
          (if 0 <? d - 1 then [encode_effect n (d - 1)] else [])).
Proof.
  intros Hn Hhp Hs. unfold update_status_effects. rewrite Hs.
  cbn [for_each]. unfold update_one_effect.
  assert (Hc : no_colon n = true) by (destruct Hn as [-> | ->]; reflexivity).
  rewrite (unpack_encode_effect _ _ Hc). cbn [mbind res_bind].
  rewrite int_of_string_str_of_int. cbn [mbind res_bind].
  rewrite (tick_damage_eighth c Hhp).
  destruct Hn as [-> | ->]; reflexivity.
Qed.

Lemma update_status_effects_burn_poison_witness :
  ("burn" = "burn" \/ "burn" = "poison") /\
  0 <= hp (base_stats (echo burned)) <= 10000 /\
  status_effects burned = [encode_effect "burn" 3] /\
  update_status_effects burned
  = Ok (set_status_effects
          (set_current_hp burned
             (Z.max 0 (current_hp burned
                       - hp (base_stats (echo burned)) / 8)))
          (if 0 <? 3 - 1 then [encode_effect "burn" (3 - 1)] else [])).
Proof.
  split; [left; reflexivity|]. split; [cbn; lia|]. split; [reflexivity|].
  apply (update_status_effects_burn_poison burned "burn" 3);
    [left; reflexivity | cbn; lia | reflexivity].
Defined.

End Lifecycle.

(* ====================================================================== *)
(** * Damage calculation: draws and errors                                 *)
(* ====================================================================== *)

Section DamageEdges.

Import Scenario.

Lemma raises_only_bind {A B} (P : exn -> Prop) (m : res A) (f : A -> res B) :
  raises_only P m -> (forall a, m = Ok a -> raises_only P (f a)) ->
  raises_only P (m ≫= f).
Proof.
  intros Hm Hf e. destruct m as [a|e']; cbn [mbind res_bind].
  - apply Hf. reflexivity.
  - intros [= ->]. apply Hm. reflexivity.
Qed.

Lemma raises_only_Ok {A} (P : exn -> Prop) (a : A) : raises_only P (Ok a).
Proof. intros e. discriminate. Qed.

Lemma float_of_int_raises (n : Z) : raises_only key_or_numeric (float_of_int n).
Proof.
  intros e. unfold float_of_int. destruct (is_inf _); [|discriminate].
  intros [= <-]. right; left; reflexivity.
Qed.

Lemma int_of_float_raises (x : float) :
  raises_only key_or_numeric (int_of_float x).
Proof.
  intros e. unfold int_of_float. destruct (Prim2SF x); try discriminate;
    intros [= <-]; unfold key_or_numeric; auto.
Qed.

Lemma int_truediv_raises (a b : Z) :
  b <> 0 -> raises_only key_or_numeric (int_truediv a b).
Proof.
  intros Hb e. unfold int_truediv.
  destruct (Z.eqb_spec b 0) as [|_]; [contradiction|].
  destruct (is_inf _); [|discriminate].
  intros [= <-]. right; left; reflexivity.
Qed.

Lemma getitem_raises `{Countable K} {V} (d : gmap K V) (k : K) :
  raises_only key_or_numeric (getitem d k).
Proof.
  intros e. unfold getitem. destruct (d !! k); [discriminate|].
  intros [= <-]. left; reflexivity.
Qed.

(** The categories [MOVE_TYPE_SCALING] knows. *)
Lemma MOVE_TYPE_SCALING_lookup (t : string) :
  MOVE_TYPE_SCALING !! t =
    if String.eqb t "physical" then Some (Some "atk")
    else if String.eqb t "special" then Some (Some "sp_atk")
    else if String.eqb t "status" then Some None
    else None.
Proof.
  unfold MOVE_TYPE_SCALING. cbn [list_to_map foldr uncurry fst snd].
  destruct (String.eqb_spec t "physical") as [->|H1]; [reflexivity|].
  rewrite lookup_insert_ne by congruence.
  destruct (String.eqb_spec t "special") as [->|H2]; [reflexivity|].
  rewrite lookup_insert_ne by congruence.
  destruct (String.eqb_spec t "status") as [->|H3]; [reflexivity|].
  rewrite lookup_insert_ne by congruence. reflexivity.
Qed.

(** X10: a move whose category is none of physical, special and status
    makes [calculate_damage] raise [KeyError], before any random draw. *)
Theorem calculate_damage_unknown_type
    (attacker defender : Echo) (move : Move)
    (mods_atk mods_def : gmap string float) (g : Random) (t : string) :
  Move.type move = Some t ->
  t <> "physical" -> t <> "special" -> t <> "status" ->
  calculate_damage attacker defender move mods_atk mods_def g
  = Raise KeyError.
Proof.
  intros Ht H1 H2 H3. unfold calculate_damage, base_damage_value.
  rewrite Ht. change (default "physical" (Some t)) with t.
  destruct (String.eqb_spec t "status") as [|_]; [contradiction|].
  unfold getitem. rewrite MOVE_TYPE_SCALING_lookup.
  destruct (String.eqb_spec t "physical") as [|_]; [contradiction|].
  destruct (String.eqb_spec t "special") as [|_]; [contradiction|].
  destruct (String.eqb_spec t "status") as [|_]; [contradiction|].
  reflexivity.
Qed.

Lemma calculate_damage_unknown_type_witness :
  let move := {| Move.name := Some "Hex"; Move.type := Some "magic";
                 Move.power := Some 50; Move.accuracy := Some 100;
                 Move.element := None; Move.effect := None |} in
  Move.type move = Some "magic" /\
  "magic" <> "physical" /\ "magic" <> "special" /\ "magic" <> "status" /\
  calculate_damage attacker50 defender50 move
    default_stat_modifiers default_stat_modifiers low_roll = Raise KeyError.
Proof.
  intros move.
  split; [reflexivity|]. do 3 (split; [discriminate|]).
  apply (calculate_damage_unknown_type _ _ move _ _ _ "magic");
    [reflexivity | discriminate | discriminate | discriminate].
Defined.

Lemma base_damage_value_raises
    (attacker defender : Echo) (move : Move)
    (mods_atk mods_def : gmap string float) :
  String.eqb (default "physical" (Move.type move)) "status" = false ->
  raises_only key_or_numeric
    (base_damage_value attacker defender move mods_atk mods_def).
Proof.
  intros Hs. unfold base_damage_value.
  apply raises_only_bind; [apply getitem_raises|].
  intros scaling Hsc. unfold getitem in Hsc.
  rewrite MOVE_TYPE_SCALING_lookup, Hs in Hsc.
  destruct scaling as [stat_type|].
  - repeat (apply raises_only_bind;
            [first [apply getitem_raises | apply float_of_int_raises
                   | apply int_of_float_raises
                   | apply int_truediv_raises; lia]
            | intros ? _]).
    apply raises_only_Ok.
  - destruct (String.eqb _ "physical"); [discriminate|].
    destruct (String.eqb _ "special"); discriminate.
Qed.

(** X11: whatever [calculate_damage] raises is a [KeyError], an
    [OverflowError] or a [ValueError]; in particular a defence of 0 never
    gives a [ZeroDivisionError], the divisor being [max(1, def_stat)]. *)
Theorem calculate_damage_raises
    (attacker defender : Echo) (move : Move)
    (mods_atk mods_def : gmap string float) (g : Random) (e : exn) :
  calculate_damage attacker defender move mods_atk mods_def g = Raise e ->
  e = KeyError \/ e = OverflowError \/ e = ValueError.
Proof.
  revert e. change (raises_only key_or_numeric
    (calculate_damage attacker defender move mods_atk mods_def g)).
  unfold calculate_damage.
  destruct (String.eqb (default "physical" (Move.type move)) "status") eqn:Hs.
  - apply raises_only_bind; [apply float_of_int_raises|].
    intros ? _. apply raises_only_Ok.
  - apply raises_only_bind; [apply base_damage_value_raises, Hs|].
    intros base _. cbn [random_random random_uniform].
    repeat (apply raises_only_bind;
            [first [apply float_of_int_raises | apply int_of_float_raises]
            | intros ? _]).
    apply raises_only_Ok.
Qed.

Lemma calculate_damage_raises_witness :
  let huge := {| Move.name := None; Move.type := Some "physical";
                 Move.power := Some (2 ^ 1100); Move.accuracy := None;
                 Move.element := None; Move.effect := None |} in
  calculate_damage attacker50 defender50 huge
    default_stat_modifiers default_stat_modifiers low_roll
  = Raise OverflowError /\
  (OverflowError = KeyError \/ OverflowError = OverflowError \/
   OverflowError = ValueError).
Proof.
  intros huge.
  assert (H : calculate_damage attacker50 defender50 huge
                default_stat_modifiers default_stat_modifiers low_roll
              = Raise OverflowError) by (vm_compute; reflexivity).
  split; [exact H|].
  exact (calculate_damage_raises _ _ _ _ _ _ _ H).
Defined.

(** What a returned damage result and generator look like. *)
Lemma calculate_damage_inv
    (attacker defender : Echo) (move : Move)
    (mods_atk mods_def : gmap string float) (g g' : Random)
    (r : DamageResult) :
  calculate_damage attacker defender move mods_atk mods_def g = Ok (r, g') ->
  draws g' = draws g /\
  if String.eqb (default "physical" (Move.type move)) "status"
  then g' = g /\ final_damage r = 0 /\ hit r = true
  else cursor g' = (cursor g + 3)%nat /\
       (if hit r then 1 <= final_damage r else final_damage r = 0).
Proof.
  unfold calculate_damage.
  destruct (String.eqb (default "physical" (Move.type move)) "status").
  - destruct (float_of_int _); cbn [mbind res_bind mret res_ret];
      [|discriminate].
    intros [= <- <-]. repeat split.
  - destruct (base_damage_value _ _ _ _ _) as [base|];
      cbn [mbind res_bind]; [|discriminate].
    cbn [random_random random_uniform].
    match goal with
    | |- int_of_float ?x ≫= _ = _ -> _ =>
        destruct (int_of_float x) as [n|]
    end; cbn [mbind res_bind]; [|discriminate].
    destruct (float_of_int _) as [acc|]; cbn [mbind res_bind];
      [|discriminate].
    destruct (int_of_float base) as [bi|]; cbn [mbind res_bind mret res_ret];
      [|discriminate].
    intros [= <- <-]. cbn [draws cursor hit final_damage].
    split; [reflexivity|]. split; [lia|].
    destruct (PrimFloat.ltb _ _); lia.
Qed.

(** X12: a returned damage calculation has consumed no random draw for a
    status move and exactly three draws for any other move, hit or miss;
    the sequence of draws itself is untouched. *)
Theorem calculate_damage_draws
    (attacker defender : Echo) (move : Move)
    (mods_atk mods_def : gmap string float) (g g' : Random)
    (r : DamageResult) :
  calculate_damage attacker defender move mods_atk mods_def g = Ok (r, g') ->
  draws g' = draws g /\
  cursor g' =
    (cursor g
     + if String.eqb (default "physical" (Move.type move)) "status"
       then 0 else 3)%nat.
Proof.
  intros H. destruct (calculate_damage_inv _ _ _ _ _ _ _ _ H) as [Hd Hc].
  split; [exact Hd|].
  destruct (String.eqb _ _).
  - destruct Hc as (-> & _). lia.
  - destruct Hc as (-> & _). reflexivity.
Qed.

Lemma calculate_damage_draws_witness :
  let r := {| base_damage := 16; type_effectiveness := 1.0;
              critical_hit := false; final_damage := 13;
              move_accuracy := 1.0; hit := true |} in
  let g' := {| draws := draws low_roll; cursor := 3 |} in
  calculate_damage attacker50 defender50 strike
    default_stat_modifiers default_stat_modifiers low_roll = Ok (r, g') /\
  draws g' = draws low_roll /\ cursor g' = (cursor low_roll + 3)%nat.
Proof.
  intros r g'.
  assert (H : calculate_damage attacker50 defender50 strike
                default_stat_modifiers default_stat_modifiers low_roll
              = Ok (r, g')) by (vm_compute; reflexivity).
  split; [exact H|].
  exact (calculate_damage_draws _ _ _ _ _ _ _ _ H).
Defined.

End DamageEdges.

(* ====================================================================== *)
(** * Move execution                                                       *)
(* ====================================================================== *)

Section MoveExecution.

Import Scenario.

(** The effect step at the end of [execute_move] touches the list of
    effects only. *)
Lemma apply_status_effect_frame (target : CombatantState) (effect : string)
    (duration : Z) :
  let target' := snd (apply_status_effect target effect duration) in
  current_hp target' = current_hp target /\
  echo target' = echo target /\
  stat_modifiers target' = stat_modifiers target /\
  is_defeated target' = is_defeated target.
Proof.
  unfold apply_status_effect. destruct (contains _ _); cbn; auto.
Qed.

(** The defender a move leaves, up to its list of effects. *)
Lemma execute_move_inv
    (attacker defender defender' : CombatantState) (move : Move)
    (g g' : Random) (dmg : Z) (r : DamageResult) (msg : string) :
  execute_move attacker defender move g = Ok ((dmg, r, msg), defender', g') ->
  calculate_damage (echo attacker) (echo defender) move
    (stat_modifiers attacker) (stat_modifiers defender) g = Ok (r, g') /\
  if hit r
  then dmg = final_damage r /\
       current_hp defender' = Z.max 0 (current_hp defender - dmg) /\
       echo defender' = echo defender /\
       stat_modifiers defender' = stat_modifiers defender /\
       is_defeated defender'
       = (current_hp defender' =? 0) || is_defeated defender
  else dmg = 0 /\ defender' = defender.
Proof.
  unfold execute_move.
  destruct (calculate_damage _ _ _ _ _ _) as [[r0 g1]|];
    cbn [mbind res_bind]; [|discriminate].
  destruct (hit r0) eqn:Hhit; cbn [negb].
  - cbn zeta.
    set (h := Z.max 0 (current_hp defender - final_damage r0)).
    change (current_hp (set_current_hp defender h)) with h.
    destruct (h =? 0) eqn:Ez;
      (destruct (Move.effect move) as [[|ch e]|];
       [ |match goal with
          | |- context [apply_status_effect ?d ?n ?k] =>
              pose proof (apply_status_effect_frame d n k) as F;
              destruct (apply_status_effect d n k) as [applied d3]
          end; cbn [snd] in F; cbn zeta in F;
          destruct F as (F1 & F2 & F3 & F4)| ]);
      cbn [mret res_ret]; intros [= <- <- _ <- <-]; rewrite Hhit;
      rewrite ?F1, ?F2, ?F3, ?F4; cbn; rewrite ?Ez;
      repeat split; reflexivity.
  - cbn [mret res_ret]. intros [= <- <- _ <- <-].
    rewrite Hhit. auto.
Qed.

(** X13: a returned [execute_move] reports a damage that is never
    negative.  On a miss the defender is exactly as before and the damage
    is 0.  On a hit the defender's HP is [max(0, hp - damage)], so HP that
    was non-negative stays between 0 and its old value, and a connecting
    move other than a status move takes at least 1 HP from a defender with
    HP left.  The defender's Echo and modifiers are never changed, and a
    defeat flag that was set stays set. *)
Theorem execute_move_defender
    (attacker defender defender' : CombatantState) (move : Move)
    (g g' : Random) (dmg : Z) (r : DamageResult) (msg : string) :
  execute_move attacker defender move g = Ok ((dmg, r, msg), defender', g') ->
  0 <= dmg /\
  (hit r = false -> defender' = defender /\ dmg = 0) /\
  (hit r = true ->
     dmg = final_damage r /\
     current_hp defender' = Z.max 0 (current_hp defender - dmg)) /\
  (0 <= current_hp defender ->
     0 <= current_hp defender' <= current_hp defender) /\
  (hit r = true ->
     String.eqb (default "physical" (Move.type move)) "status" = false ->
     0 < current_hp defender -> current_hp defender' < current_hp defender) /\
  echo defender' = echo defender /\
  stat_modifiers defender' = stat_modifiers defender /\
  (is_defeated defender = true -> is_defeated defender' = true).
Proof.
  intros H. destruct (execute_move_inv _ _ _ _ _ _ _ _ _ H) as [Hc Hd].
  destruct (calculate_damage_inv _ _ _ _ _ _ _ _ Hc) as [_ Hi].
  destruct (hit r) eqn:Hhit.
  - destruct Hd as (-> & Hhp & He & Hm & Hdef).
    assert (Hnn : 0 <= final_damage r /\
              (String.eqb (default "physical" (Move.type move)) "status"
               = false -> 1 <= final_damage r)).
    { destruct (String.eqb _ _).
      - destruct Hi as (_ & -> & _). split; [lia|discriminate].
      - destruct Hi as (_ & Hge). split; intros; lia. }
    destruct Hnn as [Hnn Hpos].
    split; [exact Hnn|]. split; [discriminate|].
    split; [auto|]. split; [lia|].
    split; [intros _ Hs Hp; specialize (Hpos Hs); lia|].
    split; [exact He|]. split; [exact Hm|].
    intros Hdd. rewrite Hdef, Hdd. apply orb_true_r.
  - destruct Hd as (-> & ->).
    split; [lia|]. split; [auto|]. split; [discriminate|].
    split; [lia|]. split; [discriminate|]. auto.
Qed.

Lemma execute_move_defender_witness :
  exists msg g',
    execute_move C A tackle low_roll
    = Ok ((2, {| base_damage := 2; type_effectiveness := 1.0;
                 critical_hit := false; final_damage := 2;
                 move_accuracy := 1.0; hit := true |}, msg),
          A_defeated, g') /\
    0 <= 2 /\ current_hp A_defeated = Z.max 0 (current_hp A - 2) /\
    is_defeated A_defeated = true.
Proof.
  do 2 eexists.
  assert (H : execute_move C A tackle low_roll = Ok (_, A_defeated, _))
    by (vm_compute; reflexivity).
  split; [exact H|].
  pose proof (execute_move_defender _ _ _ _ _ _ _ _ _ H)
    as (H1 & _ & H3 & _).
  split; [exact H1|]. split; [apply H3; reflexivity|reflexivity].
Defined.

(** X14: a status move that carries an effect always connects, whatever
    its accuracy (between 0 and 100): used on a defender with HP left that
    does not list the bare effect name, it deals 0 damage, leaves HP and
    the generator untouched and appends the effect for 3 turns. *)
Theorem execute_move_status_effect
    (attacker defender : CombatantState) (move : Move) (g : Random)
    (effect : string) :
  Move.type move = Some "status" ->
  Move.effect move = Some effect -> effect <> "" ->
  0 <= default 100 (Move.accuracy move) <= 100 ->
  0 < current_hp defender ->
  effect ∉ status_effects defender ->
  exists r msg,
    execute_move attacker defender move g
    = Ok ((0, r, msg),
          set_status_effects defender
            (status_effects defender ++ [encode_effect effect 3]), g) /\
    hit r = true /\ final_damage r = 0.
Proof.
  intros Ht He Hne Hacc Hhp Hnot.
  destruct (float_of_int_percent _ Hacc) as [acc Ha].
  unfold execute_move.
  rewrite (calculate_damage_status _ _ _ _ _ _ _ Ht Ha).
  cbn [mbind res_bind hit negb critical_hit final_damage type_effectiveness].
  cbn zeta. rewrite He.
  destruct effect as [|ch e]; [contradiction|].
  change (current_hp (set_current_hp defender
                        (Z.max 0 (current_hp defender - 0))))
    with (Z.max 0 (current_hp defender - 0)).
  replace (Z.max 0 (current_hp defender - 0)) with (current_hp defender)
    by lia.
  destruct (Z.eqb_spec (current_hp defender) 0) as [|_]; [lia|].
  unfold apply_status_effect, contains.
  rewrite bool_decide_eq_false_2 by exact Hnot.
  destruct defender. cbn. do 2 eexists. split; [reflexivity|].
  split; reflexivity.
Qed.

Lemma execute_move_status_effect_witness :
  let spore := {| Move.name := Some "Spore"; Move.type := Some "status";
                  Move.power := None; Move.accuracy := Some 85;
                  Move.element := None; Move.effect := Some "poison" |} in
  Move.type spore = Some "status" /\
  Move.effect spore = Some "poison" /\ "poison" <> "" /\
  0 <= default 100 (Move.accuracy spore) <= 100 /\
  0 < current_hp B /\ ("poison" ∉ status_effects B) /\
  exists r msg,
    execute_move C B spore low_roll
    = Ok ((0, r, msg),
          set_status_effects B
            (status_effects B ++ [encode_effect "poison" 3]), low_roll) /\
    hit r = true /\ final_damage r = 0.
Proof.
  intros spore.
  split; [reflexivity|]. split; [reflexivity|]. split; [discriminate|].
  split; [cbn; lia|]. split; [reflexivity|].
  assert (Hn : "poison" ∉ status_effects B) by (cbn; apply not_elem_of_nil).
  split; [exact Hn|].
  apply (execute_move_status_effect C B spore low_roll "poison");
    [reflexivity | reflexivity | discriminate | cbn; lia | reflexivity
    | exact Hn].
Defined.

End MoveExecution.

(* ====================================================================== *)
(** * AI move selection: what is returned                                  *)
(* ====================================================================== *)

Section AISelection.

Import Scenario.

Variable attacker : CombatantState.
Variable alive : list CombatantState.

Abbreviation chosen_from := (ai_chosen_from attacker alive).

Lemma ai_consider_chosen (move : Move) (best best' : ai_best)
    (target : CombatantState) :
  move ∈ moves (echo attacker) -> target ∈ alive ->
  chosen_from best ->
  ai_consider attacker move best target = Ok best' ->
  chosen_from best'.
Proof.
  intros Hm Ht Hb. unfold ai_consider.
  destruct best as [[bm bt] bs].
  destruct (ai_score attacker move target) as [score|];
    cbn [mbind res_bind]; [|discriminate].
  destruct (PrimFloat.ltb bs score); cbn [mret res_ret]; intros [= <-].
  - split; cbn [fst snd]; intros ? [= <-]; assumption.
  - exact Hb.
Qed.

Lemma ai_targets_chosen (move : Move) (targets : list CombatantState)
    (best best' : ai_best) :
  move ∈ moves (echo attacker) ->
  (forall t, t ∈ targets -> t ∈ alive) ->
  chosen_from best ->
  for_each (ai_consider attacker move) best targets = Ok best' ->
  chosen_from best'.
Proof.
  intros Hm. revert best.
  induction targets as [|t ts IH]; intros best Hts Hb; cbn [for_each].
  - intros [= <-]. exact Hb.
  - destruct (ai_consider attacker move best t) as [b1|] eqn:E;
      cbn [mbind res_bind]; [|discriminate].
    apply IH.
    + intros x Hx. apply Hts. right. exact Hx.
    + apply (ai_consider_chosen move best b1 t);
        [exact Hm | apply Hts; left | exact Hb | exact E].
Qed.

Lemma ai_moves_chosen (ms : list Move) (best best' : ai_best) :
  (forall m, m ∈ ms -> m ∈ moves (echo attacker)) ->
  chosen_from best ->
  for_each (fun best move => for_each (ai_consider attacker move) best alive)
    best ms = Ok best' ->
  chosen_from best'.
Proof.
  revert best. induction ms as [|m ms IH]; intros best Hms Hb;
    cbn [for_each].
  - intros [= <-]. exact Hb.
  - destruct (for_each (ai_consider attacker m) best alive) as [b1|] eqn:E;
      cbn [mbind res_bind]; [|discriminate].
    apply IH.
    + intros x Hx. apply Hms. right. exact Hx.
    + apply (ai_targets_chosen m alive best b1);
        [apply Hms; left | auto | exact Hb | exact E].
Qed.

End AISelection.

Section AIResult.

Import Scenario.

Lemma first_elem_of {A} (l : list A) (x : A) : first l = Ok x -> x ∈ l.
Proof. destruct l; [discriminate|]. intros [= <-]. left. Qed.

(** X15: whatever [ai_choose_move] returns is one of the attacker's own
    moves paired with one of the given targets that is not defeated: a
    defeated combatant is never chosen. *)
Theorem ai_choose_move_result (attacker : CombatantState)
    (defenders : list CombatantState) (m : Move) (t : CombatantState) :
  ai_choose_move attacker defenders = Ok (m, t) ->
  m ∈ moves (echo attacker) /\ t ∈ defenders /\ is_defeated t = false.
Proof.
  unfold ai_choose_move.
  set (alive := filter (fun d => is_defeated d = false) defenders).
  assert (Halive : forall x, x ∈ alive ->
                             x ∈ defenders /\ is_defeated x = false).
  { intros x Hx. apply list_elem_of_filter in Hx. tauto. }
  destruct alive as [|a0 alive'] eqn:Ea.
  - destruct (first (moves (echo attacker))); discriminate.
  - rewrite <- Ea in *.
    destruct (for_each _ _ _) as [[[bm bt] bs]|] eqn:E;
      cbn [mbind res_bind]; [|discriminate].
    assert (Hc : (forall m, bm = Some m -> m ∈ moves (echo attacker)) /\
                 (forall t, bt = Some t -> t ∈ alive)).
    { apply (ai_moves_chosen attacker alive _ _ _ (fun _ H => H)) in E;
        [exact E|]. split; intros ?; discriminate. }
    destruct Hc as [Hm Ht].
    assert (Hmove : forall m0,
               match bm with
               | Some m1 => if move_truthy m1 then Ok m1
                            else first (moves (echo attacker))
               | None => first (moves (echo attacker))
               end = Ok m0 -> m0 ∈ moves (echo attacker)).
    { intros m0. destruct bm as [m1|]; [destruct (move_truthy m1)|];
        try apply first_elem_of. intros [= <-]. auto. }
    destruct (match bm with Some _ => _ | None => _ end) as [m0|] eqn:Em;
      cbn [mbind res_bind]; [|discriminate].
    assert (Htarget : forall t0,
               match bt with
               | Some t1 => Ok t1
               | None => first alive
               end = Ok t0 -> t0 ∈ alive).
    { intros t0. destruct bt as [t1|]; [|apply first_elem_of].
      intros [= <-]. auto. }
    destruct (match bt with Some _ => _ | None => _ end) as [t0|] eqn:Et;
      cbn [mbind res_bind mret res_ret]; [|discriminate].
    intros [= <- <-]. split; [apply Hmove; reflexivity|].
    apply Halive, Htarget. reflexivity.
Qed.

Lemma ai_choose_move_result_witness :
  ai_choose_move C [A_defeated; B] = Ok (tackle, B) /\
  tackle ∈ moves (echo C) /\ B ∈ [A_defeated; B] /\ is_defeated B = false.
Proof.
  assert (H : ai_choose_move C [A_defeated; B] = Ok (tackle, B))
    by (vm_compute; reflexivity).
  split; [exact H|].
  exact (ai_choose_move_result _ _ _ _ H).
Defined.

(** X16: an attacker whose Echo knows no move makes [ai_choose_move]
    raise [IndexError] for every list of targets: with a live target the
    fallback [attacker.echo.moves[0]] indexes the empty list. *)
Theorem ai_choose_move_no_moves (attacker : CombatantState)
    (defenders : list CombatantState) :
  moves (echo attacker) = [] ->
  ai_choose_move attacker defenders = Raise IndexError.
Proof.
  intros Hm. unfold ai_choose_move. rewrite Hm.
  destruct (filter _ defenders); reflexivity.
Qed.

Lemma ai_choose_move_no_moves_witness :
  let bare := make_combatant
                {| id := "N"; name := "N"; element := NEUTRAL; level := 5;
                   base_stats := stats 10 10 10;
                   current_stats := stats 10 10 10; moves := [] |} in
  moves (echo bare) = [] /\
  ai_choose_move bare [A; B] = Raise IndexError.
Proof.
  intros bare. split; [reflexivity|].
  exact (ai_choose_move_no_moves bare [A; B] eq_refl).
Defined.

End AIResult.

(* ====================================================================== *)
(** * Battle termination: edges                                            *)
(* ====================================================================== *)

Section TerminationEdges.

Import Scenario.

(** X17: a list of fewer than two combatants is always reported finished:
    its first half is empty, and an empty team counts as defeated. *)
Theorem is_battle_finished_short (combatants : list CombatantState) :
  (length combatants < 2)%nat -> is_battle_finished combatants = true.
Proof.
  intros H. destruct combatants as [|c [|c' l]]; cbn [length] in H;
    [reflexivity|reflexivity|lia].
Qed.

Lemma is_battle_finished_short_witness :
  (length [B] < 2)%nat /\ is_defeated B = false /\
  is_battle_finished [B] = true.
Proof.
  split; [cbn; lia|]. split; [reflexivity|].
  apply (is_battle_finished_short [B]). cbn; lia.
Defined.

(** X18: with at least two combatants, none of them defeated, the battle
    is not finished. *)
Theorem is_battle_finished_all_standing (combatants : list CombatantState) :
  (2 <= length combatants)%nat ->
  Forall (fun c => is_defeated c = false) combatants ->
  is_battle_finished combatants = false.
Proof.
  intros Hlen Hall. unfold is_battle_finished.
  set (half := (length combatants / 2)%nat).
  assert (Hhalf : (1 <= half < length combatants)%nat).
  { subst half. split.
    - apply Nat.div_le_lower_bound; lia.
    - apply Nat.div_lt; lia. }
  apply orb_false_intro.
  - destruct (take half combatants) as [|c t] eqn:Et.
    + apply (f_equal length) in Et. rewrite length_take in Et.
      cbn [length] in Et. lia.
    + assert (Hc : c ∈ combatants).
      { rewrite <- (take_drop half combatants), Et.
        apply elem_of_app. left. left. }
      rewrite Forall_forall in Hall. cbn [forallb].
      rewrite (Hall c Hc). reflexivity.
  - destruct (drop half combatants) as [|c t] eqn:Ed.
    + apply (f_equal length) in Ed. rewrite length_drop in Ed.
      cbn [length] in Ed. lia.
    + assert (Hc : c ∈ combatants).
      { rewrite <- (take_drop half combatants), Ed.
        apply elem_of_app. right. left. }
      rewrite Forall_forall in Hall. cbn [forallb].
      rewrite (Hall c Hc). reflexivity.
Qed.

Lemma is_battle_finished_all_standing_witness :
  (2 <= length [A; B; C])%nat /\
  Forall (fun c => is_defeated c = false) [A; B; C] /\
  is_battle_finished [A; B; C] = false.
Proof.
  split; [cbn; lia|].
  assert (H : Forall (fun c => is_defeated c = false) [A; B; C])
    by (repeat constructor).
  split; [exact H|].
  apply (is_battle_finished_all_standing [A; B; C]); [cbn; lia|exact H].
Defined.

End TerminationEdges.

(* ====================================================================== *)
(** * Battle rewards: sums and floors                                      *)
(* ====================================================================== *)

Section RewardSums.

Import Scenario.

(** The running totals only carry the gains of a loser forward. *)
Lemma reward_for_totals (winner loser : CombatantState) (a b : Z) :
  reward_for winner (a, b) loser
  = gains ← reward_for winner (0, 0) loser;
    mret (a + fst gains, b + snd gains).
Proof.
  unfold reward_for.
  destruct (float_of_int (level (echo loser) - level (echo winner)));
    cbn [mbind res_bind]; [|reflexivity].
  destruct (float_of_int (100 + level (echo loser) * 2));
    cbn [mbind res_bind]; [|reflexivity].
  destruct (int_of_float _); cbn [mbind res_bind]; [|reflexivity].
  destruct (float_of_int (50 + level (echo loser)));
    cbn [mbind res_bind]; [|reflexivity].
  destruct (int_of_float _); cbn [mbind res_bind mret res_ret];
    reflexivity.
Qed.

Lemma for_each_reward_sum (winner : CombatantState)
    (losers : list CombatantState) (a b a' b' : Z) :
  for_each (reward_for winner) (a, b) losers = Ok (a', b') ->
  exists gains : list (Z * Z),
    Forall2 (fun loser g => reward_for winner (0, 0) loser = Ok g)
      losers gains /\
    a' = a + foldr Z.add 0 (map fst gains) /\
    b' = b + foldr Z.add 0 (map snd gains).
Proof.
  revert a b; induction losers as [|l ls IH]; intros a b; cbn [for_each].
  - intros [= <- <-]. exists []. split; [constructor|]. cbn. lia.
  - rewrite reward_for_totals.
    destruct (reward_for winner (0, 0) l) as [[x y]|] eqn:E;
      cbn [mbind res_bind mret res_ret fst snd]; [|discriminate].
    intros H. destruct (IH _ _ H) as (gains & HF & Ha & Hb).
    exists ((x, y) :: gains). split; [constructor; assumption|].
    cbn [map foldr fst snd]. lia.
Qed.

(** X19: the experience and the currency of a returned reward are the
    sums, over the losers, of what each loser gives on its own against
    the winner; no loser's reward depends on the others or on the order
    of the list. *)
Theorem calculate_battle_rewards_sum (winner : CombatantState)
    (losers : list CombatantState) (r : Rewards) :
  calculate_battle_rewards winner losers = Ok r ->
  exists gains : list (Z * Z),
    Forall2 (fun loser g => reward_for winner (0, 0) loser = Ok g)
      losers gains /\
    experience r = foldr Z.add 0 (map fst gains) /\
    currency r = foldr Z.add 0 (map snd gains).
Proof.
  unfold calculate_battle_rewards.
  destruct (for_each _ _ _) as [[te tc]|] eqn:E;
    cbn [mbind res_bind]; [|discriminate].
  destruct (float_of_int _); cbn [mbind res_bind mret res_ret];
    [|discriminate].
  intros [= <-]. cbn [experience currency].
  destruct (for_each_reward_sum _ _ _ _ _ _ E) as (gains & HF & Ha & Hb).
  exists gains. split; [exact HF|]. split; lia.
Qed.

Lemma calculate_battle_rewards_sum_witness :
  let r := {| experience := 242; currency := 120;
              bonus_multiplier := (1.0 + 1.0 * 0.1)%float |} in
  calculate_battle_rewards (of_level 20) [of_level 23; of_level 3] = Ok r /\
  exists gains : list (Z * Z),
    Forall2 (fun loser g => reward_for (of_level 20) (0, 0) loser = Ok g)
      [of_level 23; of_level 3] gains /\
    experience r = foldr Z.add 0 (map fst gains) /\
    currency r = foldr Z.add 0 (map snd gains).
Proof.
  intros r.
  assert (H : calculate_battle_rewards (of_level 20)
                [of_level 23; of_level 3] = Ok r)
    by (vm_compute; reflexivity).
  split; [exact H|].
  exact (calculate_battle_rewards_sum _ _ _ H).
Defined.

Lemma reward_floor_all :
  forallb (fun w => forallb (reward_floor_ok w) (range_from 1 100))
    (range_from 1 100) = true.
Proof. vm_compute. reflexivity. Qed.

(** X20: for levels between 1 and 100, a single defeated opponent always
    yields a reward: at least [50 + level] experience and
    [(50 + level) // 2] currency, the 50% floor, however far below the
    winner it is; and at least the full [100 + 2 * level] experience and
    [50 + level] currency when its level is not below the winner's.  The
    bonus multiplier is then 1.0. *)
Theorem calculate_battle_rewards_floor (winner loser : CombatantState) :
  1 <= level (echo winner) <= 100 ->
  1 <= level (echo loser) <= 100 ->
  exists r,
    calculate_battle_rewards winner [loser] = Ok r /\
    50 + level (echo loser) <= experience r /\
    (50 + level (echo loser)) / 2 <= currency r /\
    (level (echo winner) <= level (echo loser) ->
     100 + 2 * level (echo loser) <= experience r /\
     50 + level (echo loser) <= currency r) /\
    bonus_multiplier r = 1.0%float.
Proof.
  intros Hw Hl.
  pose proof (forallb_range _ 1 100 (level (echo winner)) reward_floor_all)
    as H1.
  cbn beta in H1. specialize (H1 ltac:(lia)).
  pose proof (forallb_range _ 1 100 (level (echo loser)) H1 ltac:(lia))
    as H2.
  unfold reward_floor_ok in H2.
  change (reward_for (of_level (level (echo winner))) (0, 0)
            (of_level (level (echo loser))))
    with (reward_for winner (0, 0) loser) in H2.
  unfold calculate_battle_rewards. cbn [for_each].
  destruct (reward_for winner (0, 0) loser) as [[e c]|];
    [|discriminate H2].
  cbn [mbind res_bind mret res_ret length].
  change (float_of_int (Z.of_nat 1 - 1)) with (Ok 0%float).
  cbn [mbind res_bind mret res_ret].
  eexists. split; [reflexivity|]. cbn [experience currency bonus_multiplier].
  apply andb_prop in H2 as [H2 H3]. apply andb_prop in H2 as [H2 H4].
  apply Z.leb_le in H2, H4.
  split; [exact H2|]. split; [exact H4|].
  split; [|reflexivity].
  intros Hle. apply Z.leb_le in Hle. rewrite Hle in H3. cbn [implb] in H3.
  apply andb_prop in H3 as [H5 H6]. apply Z.leb_le in H5, H6. lia.
Qed.

Lemma calculate_battle_rewards_floor_witness :
  1 <= level (echo (of_level 50)) <= 100 /\
  1 <= level (echo (of_level 3)) <= 100 /\
  exists r,
    calculate_battle_rewards (of_level 50) [of_level 3] = Ok r /\
    50 + level (echo (of_level 3)) <= experience r /\
    (50 + level (echo (of_level 3))) / 2 <= currency r /\
    (level (echo (of_level 50)) <= level (echo (of_level 3)) ->
     100 + 2 * level (echo (of_level 3)) <= experience r /\
     50 + level (echo (of_level 3)) <= currency r) /\
    bonus_multiplier r = 1.0%float.
Proof.
  split; [cbn; lia|]. split; [cbn; lia|].
  apply (calculate_battle_rewards_floor (of_level 50) (of_level 3));
    cbn; lia.
Defined.

End RewardSums.

(* ====================================================================== *)
(** * Stat stages: what is left alone                                      *)
(* ====================================================================== *)

Section StatFrame.

Import Scenario.

(** X21: [modify_stat] accepts any stat name without checking it: the
    call returns, the named key then has a multiplier (a name that was
    not a key is added to the map), and every other key, the HP, the
    effects, the defeat flag and the Echo are as before. *)
Theorem modify_stat_frame (c : CombatantState) (stat other : string)
    (stages : Z) :
  other <> stat ->
  exists c',
    modify_stat c stat stages = Ok c' /\
    is_Some (stat_modifiers c' !! stat) /\
    stat_modifiers c' !! other = stat_modifiers c !! other /\
    current_hp c' = current_hp c /\
    status_effects c' = status_effects c /\
    is_defeated c' = is_defeated c /\ echo c' = echo c.
Proof.
  intros Hne. destruct (stage_multipliers_total stages) as [m Hm].
  unfold modify_stat, getitem. fold (clamp_stage stages). rewrite Hm.
  cbn [mbind res_bind mret res_ret]. eexists. split; [reflexivity|].
  cbn [stat_modifiers set_stat_modifiers current_hp status_effects
       is_defeated echo].
  split; [rewrite lookup_insert_eq; eauto|].
  split; [apply lookup_insert_ne; congruence|]. auto.
Qed.

Lemma modify_stat_frame_witness :
  "spd" <> "speed" /\
  exists c',
    modify_stat B "speed" 2 = Ok c' /\
    is_Some (stat_modifiers c' !! "speed") /\
    stat_modifiers c' !! "spd" = stat_modifiers B !! "spd" /\
    current_hp c' = current_hp B /\
    status_effects c' = status_effects B /\
    is_defeated c' = is_defeated B /\ echo c' = echo B.
Proof.
  split; [discriminate|].
  apply (modify_stat_frame B "speed" "spd" 2). discriminate.
Defined.

End StatFrame.

(* ====================================================================== *)
(** * Battle summary                                                       *)
(* ====================================================================== *)

Section Summary.

Import Scenario.

Lemma foldl_max_spec (l : list Z) (x : Z) :
  x <= foldl Z.max x l /\
  Forall (fun y => y <= foldl Z.max x l) l /\
  (foldl Z.max x l = x \/ foldl Z.max x l ∈ l).
Proof.
  revert x; induction l as [|y l IH]; intros x; cbn [foldl].
  - split; [lia|]. split; [constructor|left; reflexivity].
  - destruct (IH (Z.max x y)) as (H1 & H2 & H3).
    split; [lia|]. split; [constructor; [lia|exact H2]|].
    destruct H3 as [H3|H3]; [|right; right; exact H3].
    rewrite H3. destruct (Z.max_spec x y) as [[_ ->]|[_ ->]];
      [right; left|left]; reflexivity.
Qed.

Lemma foldl_add_foldr (l : list Z) (a : Z) :
  foldl Z.add a l = a + foldr Z.add 0 l.
Proof.
  revert a; induction l as [|y l IH]; intros a; cbn [foldl foldr]; [lia|].
  rewrite IH. lia.
Qed.

(** X22: in a returned summary, [total_rounds] is the highest round
    number of the log: no entry has a higher one and, when the log is not
    empty, some entry has exactly that one; with an empty log it is 0.
    [total_actions] is the number of entries and [total_damage_dealt] the
    sum of their damage. *)
Theorem get_battle_summary_totals (ws ls : list CombatantState)
    (battle_log : list BattleLog) (s : BattleSummary) :
  get_battle_summary ws ls battle_log = Ok s ->
  Forall (fun e => BattleLog.round e <= total_rounds s) battle_log /\
  (match battle_log with
   | [] => total_rounds s = 0
   | _ => Exists (fun e => BattleLog.round e = total_rounds s) battle_log
   end) /\
  total_actions s = Z.of_nat (length battle_log) /\
  total_damage_dealt s
  = foldr Z.add 0 (map BattleLog.damage_dealt battle_log) /\
  winners s = map (fun w => name (echo w)) ws /\
  losers s = map (fun l => name (echo l)) ls.
Proof.
  unfold get_battle_summary.
  destruct (match battle_log with [] => _ | _ => _ end) as [d|];
    cbn [mbind res_bind mret res_ret]; [|discriminate].
  intros [= <-]. cbn [total_rounds total_actions total_damage_dealt
                      winners losers].
  split; [|split; [|split; [reflexivity|split; [|split; reflexivity]]]].
  - destruct battle_log as [|e log]; [constructor|].
    cbn [map]. unfold max_of.
    destruct (foldl_max_spec (map BattleLog.round log) (BattleLog.round e))
      as (H1 & H2 & _).
    constructor; [exact H1|]. rewrite Forall_fmap in H2. exact H2.
  - destruct battle_log as [|e log]; [reflexivity|].
    cbn [map]. unfold max_of.
    destruct (foldl_max_spec (map BattleLog.round log) (BattleLog.round e))
      as (_ & _ & [H3|H3]).
    + left. symmetry. exact H3.
    + right. apply Exists_exists.
      apply list_elem_of_fmap in H3 as (e' & He & Hin).
      exists e'. split; [exact Hin|]. symmetry. exact He.
  - unfold sum_of. rewrite foldl_add_foldr. lia.
Qed.

Lemma get_battle_summary_totals_witness :
  let entry r t d :=
    {| BattleLog.round := r; BattleLog.timestamp := t;
       BattleLog.actor_id := "C"; BattleLog.action_type := ATTACK;
       BattleLog.target_id := "A"; BattleLog.damage_dealt := d;
       BattleLog.healing := 0; BattleLog.status_effect := None;
       BattleLog.message := "" |} in
  let battle_log := [entry 1 1000000 5; entry 3 2500000 7;
                     entry 2 4500000 1] in
  let s := {| total_rounds := 3; winners := ["C"]; losers := ["A"];
              total_actions := 3; total_damage_dealt := 13;
              duration_seconds := Float 3.5 |} in
  get_battle_summary [C] [A] battle_log = Ok s /\
  Forall (fun e => BattleLog.round e <= total_rounds s) battle_log /\
  Exists (fun e => BattleLog.round e = total_rounds s) battle_log /\
  total_damage_dealt s
  = foldr Z.add 0 (map BattleLog.damage_dealt battle_log).
Proof.
  intros entry battle_log s.
  assert (H : get_battle_summary [C] [A] battle_log = Ok s)
    by (vm_compute; reflexivity).
  split; [exact H|].
  pose proof (get_battle_summary_totals _ _ _ _ H) as (H1 & H2 & _ & H4 & _).
  split; [exact H1|]. split; [exact H2|exact H4].
Defined.

End Summary.

(* ====================================================================== *)
(** * Status effects over several rounds                                   *)
(* ====================================================================== *)

Section Rounds.

Import Scenario.

Lemma tick_durations_after_ticks (n : nat) (l : list (string * Z)) :
  tick_durations (after_ticks n l) = after_ticks (S n) l.
Proof.
  unfold tick_durations, after_ticks.
  induction l as [|[e d] l IH]; [reflexivity|].
  cbn [map fst snd]. rewrite !filter_cons. cbn [snd].
  destruct (decide (0 < d - Z.of_nat n)) as [H1|H1];
    destruct (decide (0 < d - Z.of_nat (S n))) as [H2|H2].
  - cbn [map fst snd]. rewrite filter_cons. cbn [snd].
    case_decide; [|lia]. rewrite IH. do 2 f_equal. lia.
  - cbn [map fst snd]. rewrite filter_cons. cbn [snd].
    case_decide; [lia|]. exact IH.
  - lia.
  - exact IH.
Qed.

Lemma tick_durations_first (l : list (string * Z)) :
  tick_durations l = after_ticks 1 l.
Proof. reflexivity. Qed.

Lemma after_ticks_no_colon (n : nat) (l : list (string * Z)) :
  Forall (fun p => no_colon (fst p) = true) l ->
  Forall (fun p => no_colon (fst p) = true) (after_ticks n l).
Proof.
  unfold after_ticks. induction 1 as [|[e d] l He _ IH]; [constructor|].
  cbn [map fst snd] in *. rewrite filter_cons.
  case_decide; [constructor; assumption|exact IH].
Qed.

(** X23: an effect stored with [d] turns acts on exactly the next [d]
    ticks.  After [n >= 1] ticks that return, the active list holds the
    entries whose counter was above [n], in order, each with [n] turns
    less; an entry with [d <= n] is gone. *)
Theorem ticks_durations (n : nat) (c c' : CombatantState)
    (l : list (string * Z)) :
  (1 <= n)%nat ->
  Forall (fun p => no_colon (fst p) = true) l ->
  status_effects c = encode_all l ->
  ticks n c = Ok c' ->
  status_effects c' = encode_all (after_ticks n l).
Proof.
  intros Hn Hl. destruct n as [|n]; [lia|]. clear Hn.
  revert c c'. induction n as [|n IH]; intros c c' Hs; cbn [ticks].
  - destruct (update_status_effects c) as [c1|] eqn:E;
      cbn [mbind res_bind]; [|discriminate].
    intros [= <-]. rewrite <- tick_durations_first.
    exact (update_status_effects_encoded _ _ _ Hl Hs E).
  - intros H.
    assert (G : forall k c0 c1,
               ticks (S k) c0 = Ok c1 ->
               exists cm, ticks k c0 = Ok cm /\
                          update_status_effects cm = Ok c1).
    { clear. induction k as [|k IHk]; intros c0 c1; cbn [ticks].
      - destruct (update_status_effects c0) as [c2|] eqn:E;
          cbn [mbind res_bind]; [|discriminate].
        intros [= <-]. exists c0. split; [reflexivity|exact E].
      - destruct (update_status_effects c0) as [c2|] eqn:E;
          cbn [mbind res_bind]; [|discriminate].
        intros H. apply (IHk c2 c1) in H as (cm & H1 & H2).
        exists cm. split; [exact H1|exact H2]. }
    apply (G (S n) c c') in H as (cm & H1 & H2).
    pose proof (IH c cm Hs H1) as Hm.
    rewrite <- tick_durations_after_ticks.
    exact (update_status_effects_encoded _ _ _
             (after_ticks_no_colon _ _ Hl) Hm H2).
Qed.

Lemma ticks_durations_witness :
  let l := [("sleep", 3); ("freeze", 1); ("paralysis", 2)] in
  let c := set_status_effects B (encode_all l) in
  (1 <= 2)%nat /\
  Forall (fun p : string * Z => no_colon (fst p) = true) l /\
  status_effects c = encode_all l /\
  exists c',
    ticks 2 c = Ok c' /\
    status_effects c' = encode_all (after_ticks 2 l) /\
    encode_all (after_ticks 2 l) = ["sleep:1"].
Proof.
  intros l c. split; [lia|].
  assert (Hl : Forall (fun p : string * Z => no_colon (fst p) = true) l)
    by (repeat constructor).
  split; [exact Hl|]. split; [reflexivity|].
  eexists. split; [vm_compute; reflexivity|].
  split; [|reflexivity].
  apply (ticks_durations 2 c _ l); [lia | exact Hl | reflexivity|].
  vm_compute. reflexivity.
Defined.

(** X24: the speed penalty of a paralysis outlives the effect.  A
    paralysis on its last turn is removed by the tick, the stored speed
    multiplier is left halved, and a further tick restores nothing: it
    returns the combatant unchanged. *)
Theorem paralysis_penalty_stays (c : CombatantState) (m : float) :
  status_effects c = [encode_effect "paralysis" 1] ->
  stat_modifiers c !! "spd" = Some m ->
  exists c1,
    update_status_effects c = Ok c1 /\
    status_effects c1 = [] /\
    stat_modifiers c1 !! "spd" = Some (m * 0.5)%float /\
    update_status_effects c1 = Ok c1.
Proof.
  intros Hs Hm. rewrite (paralysis_tick c m 1 Hs Hm).
  change (0 <? 1 - 1) with false. cbv iota.
  eexists. split; [reflexivity|]. split; [reflexivity|].
  split; [apply lookup_insert_eq|reflexivity].
Qed.

Lemma paralysis_penalty_stays_witness :
  let c := set_status_effects B [encode_effect "paralysis" 1] in
  status_effects c = [encode_effect "paralysis" 1] /\
  stat_modifiers c !! "spd" = Some 1.0%float /\
  exists c1,
    update_status_effects c = Ok c1 /\
    status_effects c1 = [] /\
    stat_modifiers c1 !! "spd" = Some (1.0 * 0.5)%float /\
    update_status_effects c1 = Ok c1.
Proof.
  intros c. split; [reflexivity|]. split; [reflexivity|].
  exact (paralysis_penalty_stays c 1.0%float eq_refl eq_refl).
Defined.

End Rounds.
